(** * Fund-flow analysis: the aggregation pipeline of eth-fund-flow-analysis

    A shallow embedding of the Go sources
    - [internal/analyzer/beneficiary.go] (AnalyzeBeneficiary, processBeneficiary),
    - the payer analyzer (AnalyzePayer, processPayer),
    - the Etherscan client (fetchTransactions, GetTokenTransfers),
    - [internal/etherscan/models.go] (FormatTime),
    together with the parts of the Go standard library these functions call
    (strings.EqualFold, strconv.ParseInt, time.Unix/Format, math/big.Float,
    errgroup.Group), and the properties of the pipeline proved over it.

    Conventions.  A Go [string] is a [string] of bytes.  A [float64] is a
    [spec_float] operated at precision 53 and exponent bound 1024, a
    [big.Float] of precision 64 a [spec_float] at precision 64.  A Go map
    is a [gmap]; ranging over it yields its entries in an unspecified order.
    A Go slice is [nilSlice] or [Slice l].  An [error] is its message. *)

From Stdlib Require Import ZArith String Ascii List Lia Permutation.
From Stdlib.Floats Require Import SpecFloat.
From stdpp Require Import base gmap strings list fin_maps.

Local Open Scope string_scope.
Local Open Scope Z_scope.

(* ===================================================================== *)
(** ** Go values *)

(** Slices distinguish [nil] from an empty, allocated slice. *)
Inductive slice (A : Type) : Type :=
| nilSlice
| Slice (l : list A).
Arguments nilSlice {A}.
Arguments Slice {A} l.

Definition elems {A} (s : slice A) : list A :=
  match s with
  | nilSlice => []
  | Slice l => l
  end.

Definition isNil {A} (s : slice A) : bool :=
  match s with
  | nilSlice => true
  | Slice _ => false
  end.

(** An error value is represented by its message; [None] is Go's [nil]. *)
Definition error := string.

(** [fmt.Errorf (prefix ++ ": %w") err] *)
Definition wrapError (prefix : string) (err : error) : error :=
  (prefix ++ ": " ++ err)%string.

(** The behaviour of the Go runtime and standard library that the sources
    depend on but that lies outside what is modelled here. *)
Record GoRuntime : Type := {
  (** [strings.EqualFold] from the first non-ASCII byte on: the Unicode
      simple-folding comparison of the two remaining suffixes. *)
  foldUnicode : string -> string -> bool;
  (** [time.Local]: offset east of UTC, in seconds, in force at a Unix time. *)
  zoneOffset : Z -> Z;
  (** [big.Float.SetString] on numerals using more than sign and decimal
      digits (radix point, exponent, base prefix, digit separators): the
      value left in the receiver and the success flag. *)
  scanExtended : string -> spec_float * bool
}.

(* ===================================================================== *)
(** ** Bytes and strings *)

Definition byteVal (c : ascii) : Z := Z.of_N (N_of_ascii c).

Definition RuneSelf : Z := 128.

Definition isDigit (c : ascii) : bool :=
  (48 <=? byteVal c) && (byteVal c <=? 57).

Definition isUpperASCII (c : ascii) : bool :=
  (65 <=? byteVal c) && (byteVal c <=? 90).

Definition isASCII (c : ascii) : bool := byteVal c <? RuneSelf.

Fixpoint asciiOnly (s : string) : bool :=
  match s with
  | EmptyString => true
  | String c s' => isASCII c && asciiOnly s'
  end.

(** ASCII lower-casing of one byte, and of a string. *)
Definition lowerByte (c : ascii) : ascii :=
  if isUpperASCII c then ascii_of_N (N_of_ascii c + 32) else c.

Fixpoint lowerASCII (s : string) : string :=
  match s with
  | EmptyString => EmptyString
  | String c s' => String (lowerByte c) (lowerASCII s')
  end.

Section Library.

Variable rt : GoRuntime.

(** [strings.EqualFold]: the byte loop of the ASCII fast path; at the first
    position where either byte is not ASCII the comparison of the remaining
    suffixes is handed to the Unicode path. *)
Fixpoint EqualFold (s t : string) : bool :=
  match s, t with
  | String sr s', String tr t' =>
      if RuneSelf <=? Z.lor (byteVal sr) (byteVal tr) then foldUnicode rt s t
      else if byteVal tr =? byteVal sr then EqualFold s' t'
      else
        let lo := Z.min (byteVal sr) (byteVal tr) in
        let hi := Z.max (byteVal sr) (byteVal tr) in
        if (65 <=? lo) && (lo <=? 90) && (hi =? lo + 97 - 65)
        then EqualFold s' t'
        else false
  | EmptyString, EmptyString => true
  | _, _ => false
  end.

(* ===================================================================== *)
(** ** strconv.ParseInt (s, 10, 64) *)

Fixpoint parseDigits (s : string) (acc : Z) : option Z :=
  match s with
  | EmptyString => Some acc
  | String c s' =>
      if isDigit c then parseDigits s' (10 * acc + (byteVal c - 48)) else None
  end.

(** [ParseUint] in base 10, before its range check: a non-empty run of
    decimal digits. *)
Definition parseUintDigits (s : string) : option Z :=
  match s with
  | EmptyString => None
  | _ => parseDigits s 0
  end.

(** [None] stands for a non-nil error (syntax or range). *)
Definition ParseInt (s : string) : option Z :=
  match s with
  | EmptyString => None
  | String c s' =>
      let neg := byteVal c =? 45 in
      let body := if (byteVal c =? 43) || (byteVal c =? 45) then s' else s in
      match parseUintDigits body with
      | None => None
      | Some un =>
          let cutoff := 2 ^ 63 in
          if negb neg && (cutoff <=? un) then None
          else if neg && (cutoff <? un) then None
          else Some (if neg then - un else un)
      end
  end.

(* ===================================================================== *)
(** ** time.Unix (sec, 0) and Time.Format "2006-01-02 15:04:05" *)

Record Civil : Type := {
  year : Z; month : Z; day : Z; hour : Z; minute : Z; second : Z
}.

(** Proleptic Gregorian date of a day number counted from 1970-01-01. *)
Definition civilFromDays (days : Z) : Z * Z * Z :=
  let z := days + 719468 in
  let era := z / 146097 in
  let doe := z - era * 146097 in
  let yoe := (doe - doe / 1460 + doe / 36524 - doe / 146096) / 365 in
  let doy := doe - (365 * yoe + yoe / 4 - yoe / 100) in
  let mp := (5 * doy + 2) / 153 in
  let d := doy - (153 * mp + 2) / 5 + 1 in
  let m := if mp <? 10 then mp + 3 else mp - 9 in
  let y := yoe + era * 400 + (if m <=? 2 then 1 else 0) in
  (y, m, d).

Definition digitChar (d : Z) : ascii := ascii_of_N (Z.to_N (48 + d)).

Fixpoint decimalDigits (fuel : nat) (u : Z) (acc : string) : string :=
  match fuel with
  | O => acc
  | S fuel' =>
      let acc' := String (digitChar (u mod 10)) acc in
      if u <? 10 then acc' else decimalDigits fuel' (u / 10) acc'
  end.

Definition utoa (u : Z) : string :=
  decimalDigits (S (Z.to_nat (Z.log2 u))) u "".

Fixpoint zeros (n : nat) : string :=
  match n with
  | O => ""
  | S n' => String "0" (zeros n')
  end.

(** [appendInt b x width]: sign, zero padding up to [width] digits, digits. *)
Definition appendInt (x : Z) (width : nat) : string :=
  let u := Z.abs x in
  let ds := utoa u in
  let sign := if x <? 0 then "-" else "" in
  let pad := zeros (Nat.sub width (String.length ds)) in
  (sign ++ pad ++ ds)%string.

Definition formatCivil (c : Civil) : string :=
  (appendInt (year c) 4 ++ "-" ++ appendInt (month c) 2 ++ "-" ++
   appendInt (day c) 2 ++ " " ++ appendInt (hour c) 2 ++ ":" ++
   appendInt (minute c) 2 ++ ":" ++ appendInt (second c) 2)%string.

(** The wall clock of [time.Unix (sec, 0)] in the local zone. *)
Definition unixToCivil (sec : Z) : Civil :=
  let abs := sec + zoneOffset rt sec in
  let '(y, m, d) := civilFromDays (abs / 86400) in
  let rem := abs mod 86400 in
  {| year := y; month := m; day := d;
     hour := rem / 3600; minute := (rem mod 3600) / 60; second := rem mod 60 |}.

(** [etherscan.FormatTime]; [None] is the error return. *)
Definition FormatTime (timestamp : string) : option string :=
  match ParseInt timestamp with
  | None => None
  | Some unixTime => Some (formatCivil (unixToCivil unixTime))
  end.

(* ===================================================================== *)
(** ** math/big.Float at its default precision, and float64 *)

Definition float64 := spec_float.

Definition f64add : float64 -> float64 -> float64 := SFadd 53 1024.

Definition f64zero : float64 := S754_zero false.

Definition bigPrec : Z := 64.
Definition MaxExp : Z := 2147483647.

(** A non-negative integer with the given sign, rounded to nearest even at
    the precision of the receiver. *)
Definition bigOfInt (neg : bool) (n : Z) : spec_float :=
  binary_normalize bigPrec MaxExp (if neg then - n else n) 0 neg.

(** [z.Quo (x, y)] for a finite non-zero divisor. *)
Definition Quo (x y : spec_float) : spec_float := SFdiv bigPrec MaxExp x y.

(** [x.Float64 ()]: the nearest float64, to even on ties. *)
Definition Float64 (x : spec_float) : float64 :=
  match x with
  | S754_finite s m e =>
      binary_normalize 53 1024 (if s then Z.neg m else Z.pos m) e s
  | _ => x
  end.

Definition isInfLiteral (s : string) : option bool :=
  if (String.eqb s "Inf" || String.eqb s "inf" ||
      String.eqb s "+Inf" || String.eqb s "+inf")%bool then Some false
  else if (String.eqb s "-Inf" || String.eqb s "-inf")%bool then Some true
  else None.

(** [scanSign]: an optional leading sign. *)
Definition scanSign (s : string) : bool * string :=
  match s with
  | String c s' =>
      if byteVal c =? 45 then (true, s')
      else if byteVal c =? 43 then (false, s')
      else (false, s)
  | EmptyString => (false, s)
  end.

(** The maximal run of decimal digits at the head of a string: its value,
    its length and the rest of the string. *)
Fixpoint scanDigits (s : string) (acc : Z) (count : nat) : Z * nat * string :=
  match s with
  | String c s' =>
      if isDigit c then scanDigits s' (10 * acc + (byteVal c - 48)) (S count)
      else (acc, count, s)
  | EmptyString => (acc, count, s)
  end.

Definition memByte (c : ascii) (l : list Z) : bool :=
  existsb (Z.eqb (byteVal c)) l.

(** [b B o O x X]: the second byte of a base prefix. *)
Definition prefixBytes : list Z := [98; 66; 111; 79; 120; 88].
(** [. _ e E p P]: bytes that continue a numeral after its digits. *)
Definition continuationBytes : list Z := [46; 95; 101; 69; 112; 80].

(** Does the numeral (after its sign) use more than decimal digits? *)
Definition usesExtendedSyntax (r : string) : bool :=
  match r with
  | String c0 (String c1 _) =>
      if (byteVal c0 =? 48) && memByte c1 prefixBytes then true
      else
        match scanDigits r 0 0 with
        | (_, _, String c _) => memByte c continuationBytes
        | _ => false
        end
  | _ =>
      match scanDigits r 0 0 with
      | (_, _, String c _) => memByte c continuationBytes
      | _ => false
      end
  end.

(** [z.SetString s] on a fresh receiver: the value left in [z] and the
    success flag.  The receiver is zero when the scanner reports an error,
    and holds the scanned number when only the check that the whole string
    was consumed fails. *)
Definition SetString (s : string) : spec_float * bool :=
  match isInfLiteral s with
  | Some neg => (S754_infinity neg, true)
  | None =>
      match s with
      | EmptyString => (S754_zero false, false)
      | _ =>
          let (neg, r) := scanSign s in
          if usesExtendedSyntax r then scanExtended rt s
          else
            match scanDigits r 0 0 with
            | (_, O, _) => (S754_zero neg, false)
            | (n, _, rest) =>
                if MaxExp <? Z.log2 n + 1 then (S754_zero neg, false)
                else (bigOfInt neg n, String.eqb rest "")
            end
      end
  end.

(** The conversion at the head of [processBeneficiary] and [processPayer]:
    the result of [SetString] is dropped, the receiver is divided by 10^18
    and converted to a float64. *)
Definition toDisplayAmount (valueStr : string) : float64 :=
  let value := fst (SetString valueStr) in
  let divisor := fst (SetString "1000000000000000000") in
  Float64 (Quo value divisor).

End Library.

(* ===================================================================== *)
(** ** Records of the Etherscan client and of the analyzers

    The wire records carry further fields (block number, gas, token
    metadata, ...) that no analysis reads; only the fields read are kept. *)

Module Transaction.
Record t : Type := {
  Hash : string; TimeStamp : string; From : string; To : string;
  Value : string; IsError : string
}.
End Transaction.

Module TokenTransfer.
Record t : Type := {
  Hash : string; TimeStamp : string; From : string; To : string;
  Value : string; TokenName : string; TokenSymbol : string
}.
End TokenTransfer.

Record TransactionDetails : Type := {
  TxAmount : float64; DateTime : string; TransactionID : string
}.

Module Beneficiary.
Record t : Type := {
  Address : string; Amount : float64; Transactions : list TransactionDetails
}.
End Beneficiary.

Module Payer.
Record t : Type := {
  Address : string; Amount : float64; Transactions : list TransactionDetails
}.
End Payer.

(* ===================================================================== *)
(** ** The aggregation engine *)

Section Aggregation.

Variable rt : GoRuntime.

(** The TransactionDetails that both [processBeneficiary] and
    [processPayer] build before touching the map. *)
Definition makeDetails (valueStr hash timestampStr : string) : TransactionDetails :=
  let amount := toDisplayAmount rt valueStr in
  let dateTime :=
    match FormatTime rt timestampStr with
    | Some formatted => formatted
    | None => timestampStr
    end in
  {| TxAmount := amount; DateTime := dateTime; TransactionID := hash |}.

Definition processBeneficiary (beneficiaryMap : gmap string Beneficiary.t)
    (beneficiaryAddr valueStr hash timestampStr : string)
  : gmap string Beneficiary.t :=
  let txDetails := makeDetails valueStr hash timestampStr in
  let amount := TxAmount txDetails in
  match beneficiaryMap !! beneficiaryAddr with
  | Some b =>
      <[beneficiaryAddr :=
          {| Beneficiary.Address := Beneficiary.Address b;
             Beneficiary.Amount := f64add (Beneficiary.Amount b) amount;
             Beneficiary.Transactions := (Beneficiary.Transactions b ++ [txDetails])%list |}]>
        beneficiaryMap
  | None =>
      <[beneficiaryAddr :=
          {| Beneficiary.Address := beneficiaryAddr;
             Beneficiary.Amount := amount;
             Beneficiary.Transactions := [txDetails] |}]>
        beneficiaryMap
  end.

Definition processPayer (payerMap : gmap string Payer.t)
    (payerAddr valueStr hash timestampStr : string)
  : gmap string Payer.t :=
  let txDetails := makeDetails valueStr hash timestampStr in
  let amount := TxAmount txDetails in
  match payerMap !! payerAddr with
  | Some p =>
      <[payerAddr :=
          {| Payer.Address := Payer.Address p;
             Payer.Amount := f64add (Payer.Amount p) amount;
             Payer.Transactions := (Payer.Transactions p ++ [txDetails])%list |}]>
        payerMap
  | None =>
      <[payerAddr :=
          {| Payer.Address := payerAddr;
             Payer.Amount := amount;
             Payer.Transactions := [txDetails] |}]>
        payerMap
  end.

(** The three loops of [AnalyzeBeneficiary] over the fetched records. *)
Definition beneficiaryTxStep (address : string)
    (m : gmap string Beneficiary.t) (tx : Transaction.t) : gmap string Beneficiary.t :=
  if EqualFold rt (Transaction.From tx) address && String.eqb (Transaction.IsError tx) "0"
  then processBeneficiary m (Transaction.To tx) (Transaction.Value tx)
         (Transaction.Hash tx) (Transaction.TimeStamp tx)
  else m.

Definition beneficiaryTokenStep (address : string)
    (m : gmap string Beneficiary.t) (transfer : TokenTransfer.t) : gmap string Beneficiary.t :=
  if EqualFold rt (TokenTransfer.From transfer) address
  then processBeneficiary m (TokenTransfer.To transfer) (TokenTransfer.Value transfer)
         (TokenTransfer.Hash transfer) (TokenTransfer.TimeStamp transfer)
  else m.

Definition buildBeneficiaryMap (address : string)
    (normalTxs internalTxs : list Transaction.t) (tokenTransfers : list TokenTransfer.t)
  : gmap string Beneficiary.t :=
  let m1 := fold_left (beneficiaryTxStep address) normalTxs ∅ in
  let m2 := fold_left (beneficiaryTxStep address) internalTxs m1 in
  fold_left (beneficiaryTokenStep address) tokenTransfers m2.

(** The three loops of [AnalyzePayer]. *)
Definition payerTxStep (address : string)
    (m : gmap string Payer.t) (tx : Transaction.t) : gmap string Payer.t :=
  if EqualFold rt (Transaction.To tx) address && String.eqb (Transaction.IsError tx) "0"
  then processPayer m (Transaction.From tx) (Transaction.Value tx)
         (Transaction.Hash tx) (Transaction.TimeStamp tx)
  else m.

Definition payerTokenStep (address : string)
    (m : gmap string Payer.t) (transfer : TokenTransfer.t) : gmap string Payer.t :=
  if EqualFold rt (TokenTransfer.To transfer) address
  then processPayer m (TokenTransfer.From transfer) (TokenTransfer.Value transfer)
         (TokenTransfer.Hash transfer) (TokenTransfer.TimeStamp transfer)
  else m.

Definition buildPayerMap (address : string)
    (normalTxs internalTxs : list Transaction.t) (tokenTransfers : list TokenTransfer.t)
  : gmap string Payer.t :=
  let m1 := fold_left (payerTxStep address) normalTxs ∅ in
  let m2 := fold_left (payerTxStep address) internalTxs m1 in
  fold_left (payerTokenStep address) tokenTransfers m2.

End Aggregation.

(** [for _, v := range m]: the values of a map are visited once each, in an
    order that the language leaves unspecified. *)
Definition rangeValues {V : Type} (m : gmap string V) (visited : list V) : Prop :=
  visited ≡ₚ (map_to_list m).*2.

(* ===================================================================== *)
(** ** The Etherscan client *)

(** What [json.Unmarshal] makes of a response body: the outcome of decoding
    it as the standard response (status, message, array of records) and as
    the error response (status, message, string result). *)
Record responseBody (A : Type) : Type := {
  asResponse : error + (string * string * slice A);
  asErrorResult : error + (string * string * string)
}.
Arguments asResponse {A} _.
Arguments asErrorResult {A} _.

(** A response whose body [io.ReadAll] fails on, or a body. *)
Inductive httpResponse (A : Type) : Type :=
| BodyUnreadable (err : error)
| Body (b : responseBody A).
Arguments BodyUnreadable {A} err.
Arguments Body {A} b.

(** [httpClient.Get]: a transport error or a response. *)
Definition getOutcome (A : Type) : Type := (error + httpResponse A)%type.

(** The remote source as one fetch sees it: the outcome of its i-th request
    to an endpoint. *)
Record Network : Type := {
  getTransactions : string -> nat -> getOutcome Transaction.t;
  getTokenTransfers : string -> nat -> getOutcome TokenTransfer.t
}.

Record Client : Type := { apiKey : string; httpClient : Network }.

(** What a fetch does besides computing its result. *)
Inductive event : Type :=
| Get
| Sleep (seconds : Z).

Definition baseURL : string := "https://api.etherscan.io/api".

Definition endpointFor (action address key : string) : string :=
  (baseURL ++ "?module=account&action=" ++ action ++ "&address=" ++ address ++
   "&startblock=0&endblock=99999999&page=1&offset=100&sort=desc&apikey=" ++ key)%string.

Definition maxRetries : nat := 3.

(** The request loop of [fetchTransactions]; [retry] is the loop variable
    and [remaining] the number of iterations left after this one. *)
Fixpoint retryLoop {A} (get : nat -> getOutcome A) (remaining retry : nat)
  : list event * getOutcome A :=
  let wait := if (0 <? retry)%nat then [Sleep (Z.of_nat (retry * retry))] else [] in
  match get retry with
  | inr resp => ((wait ++ [Get])%list, inr resp)
  | inl err =>
      match remaining with
      | O => ((wait ++ [Get])%list, inl err)
      | S remaining' =>
          let (rest, out) := retryLoop get remaining' (S retry) in
          ((wait ++ Get :: rest)%list, out)
      end
  end.

Definition rateLimitMessage : error :=
  "etherscan API rate limit exceeded, please try again later".

Definition apiError (msg : string) : error := ("etherscan API error: " ++ msg)%string.

(** The classification of a string result, shared by both fetchers. *)
Definition errorResultOutcome {A} (b : responseBody A) : option error :=
  match asErrorResult b with
  | inr (_, _, result) =>
      if String.eqb result "" then None
      else if String.eqb result "Max rate limit reached" then Some rateLimitMessage
      else Some (apiError result)
  | inl _ => None
  end.

Definition fetchTransactions (get : nat -> getOutcome Transaction.t)
  : list event * (slice Transaction.t * option error) :=
  let (trace, out) := retryLoop get (maxRetries - 1) 0 in
  (trace,
   match out with
   | inl err => (nilSlice, Some (wrapError "error fetching transactions after 3 retries" err))
   | inr (BodyUnreadable err) => (nilSlice, Some (wrapError "error reading response body" err))
   | inr (Body b) =>
       match asResponse b with
       | inl err =>
           match errorResultOutcome b with
           | Some e => (nilSlice, Some e)
           | None => (nilSlice, Some (wrapError "error unmarshaling response" err))
           end
       | inr (status, message, result) =>
           if String.eqb status "0" && String.eqb message "No transactions found"
           then (Slice [], None)
           else if String.eqb status "0" then (nilSlice, Some (apiError message))
           else (result, None)
       end
   end).

Definition GetNormalTransactions (c : Client) (address : string) :=
  fetchTransactions (getTransactions (httpClient c) (endpointFor "txlist" address (apiKey c))).

Definition GetInternalTransactions (c : Client) (address : string) :=
  fetchTransactions (getTransactions (httpClient c) (endpointFor "txlistinternal" address (apiKey c))).

Definition GetTokenTransfers (c : Client) (address : string)
  : list event * (slice TokenTransfer.t * option error) :=
  ([Get],
   match getTokenTransfers (httpClient c) (endpointFor "tokentx" address (apiKey c)) 0%nat with
   | inl err => (nilSlice, Some (wrapError "error fetching token transfers" err))
   | inr (BodyUnreadable err) => (nilSlice, Some (wrapError "error reading response body" err))
   | inr (Body b) =>
       match asResponse b with
       | inl err => (nilSlice, Some (wrapError "error unmarshaling response" err))
       | inr (status, message, result) =>
           if String.eqb status "0" then
             if String.eqb message "No transactions found" then (Slice [], None)
             else
               match errorResultOutcome b with
               | Some e => (nilSlice, Some e)
               | None => (nilSlice, Some (apiError message))
               end
           else (result, None)
       end
   end).

(* ===================================================================== *)
(** ** The concurrent fetch of the analyzers

    [AnalyzeBeneficiary] and [AnalyzePayer] start three goroutines in an
    [errgroup.Group].  Each goroutine assigns the two results of its fetch
    to its own slice variable and to the variable [err] that the three
    closures share, then tests [err] and returns it wrapped, or nil.  The
    group keeps the first non-nil error returned.  A goroutine therefore
    takes two steps, and a run interleaves the steps of the three. *)

Inductive task : Type := NormalTask | InternalTask | TokenTask.

Record GroupState : Type := {
  normalTxs : slice Transaction.t;
  internalTxs : slice Transaction.t;
  tokenTransfers : slice TokenTransfer.t;
  err : option error;       (** the [err] variable captured by the closures *)
  groupErr : option error;  (** the error kept by the group *)
  pcNormal : nat; pcInternal : nat; pcToken : nat  (** steps taken so far *)
}.

Definition initialState : GroupState :=
  {| normalTxs := nilSlice; internalTxs := nilSlice; tokenTransfers := nilSlice;
     err := None; groupErr := None; pcNormal := 0; pcInternal := 0; pcToken := 0 |}.

(** The results of the three fetches of one analysis. *)
Record Fetched : Type := {
  fetchedNormal : slice Transaction.t * option error;
  fetchedInternal : slice Transaction.t * option error;
  fetchedToken : slice TokenTransfer.t * option error
}.

Definition fetchAll (c : Client) (address : string) : Fetched :=
  {| fetchedNormal := snd (GetNormalTransactions c address);
     fetchedInternal := snd (GetInternalTransactions c address);
     fetchedToken := snd (GetTokenTransfers c address) |}.

(** The return of a goroutine, as recorded by the group. *)
Definition taskReturn (prefix : string) (st : GroupState) : option error :=
  match groupErr st, err st with
  | Some e, _ => Some e
  | None, Some e => Some (wrapError prefix e)
  | None, None => None
  end.

(** One step of a goroutine. *)
Definition stepTask (f : Fetched) (t : task) (st : GroupState) : GroupState :=
  match t with
  | NormalTask =>
      match pcNormal st with
      | O => {| normalTxs := fst (fetchedNormal f); internalTxs := internalTxs st;
                tokenTransfers := tokenTransfers st; err := snd (fetchedNormal f);
                groupErr := groupErr st;
                pcNormal := 1; pcInternal := pcInternal st; pcToken := pcToken st |}
      | S O => {| normalTxs := normalTxs st; internalTxs := internalTxs st;
                  tokenTransfers := tokenTransfers st; err := err st;
                  groupErr := taskReturn "error fetching normal transactions" st;
                  pcNormal := 2; pcInternal := pcInternal st; pcToken := pcToken st |}
      | _ => st
      end
  | InternalTask =>
      match pcInternal st with
      | O => {| normalTxs := normalTxs st; internalTxs := fst (fetchedInternal f);
                tokenTransfers := tokenTransfers st; err := snd (fetchedInternal f);
                groupErr := groupErr st;
                pcNormal := pcNormal st; pcInternal := 1; pcToken := pcToken st |}
      | S O => {| normalTxs := normalTxs st; internalTxs := internalTxs st;
                  tokenTransfers := tokenTransfers st; err := err st;
                  groupErr := taskReturn "error fetching internal transactions" st;
                  pcNormal := pcNormal st; pcInternal := 2; pcToken := pcToken st |}
      | _ => st
      end
  | TokenTask =>
      match pcToken st with
      | O => {| normalTxs := normalTxs st; internalTxs := internalTxs st;
                tokenTransfers := fst (fetchedToken f); err := snd (fetchedToken f);
                groupErr := groupErr st;
                pcNormal := pcNormal st; pcInternal := pcInternal st; pcToken := 1 |}
      | S O => {| normalTxs := normalTxs st; internalTxs := internalTxs st;
                  tokenTransfers := tokenTransfers st; err := err st;
                  groupErr := taskReturn "error fetching token transfers" st;
                  pcNormal := pcNormal st; pcInternal := pcInternal st; pcToken := 2 |}
      | _ => st
      end
  end.

(** A schedule names, step by step, the goroutine that runs next. *)
Definition runSchedule (f : Fetched) (sched : list task) : GroupState :=
  fold_left (fun st t => stepTask f t st) sched initialState.

(** [eg.Wait] returns once every goroutine has taken both its steps. *)
Definition completeSchedule (sched : list task) : Prop :=
  sched ≡ₚ [NormalTask; NormalTask; InternalTask; InternalTask; TokenTask; TokenTask].

(** A schedule in which no goroutine runs between the two steps of another. *)
Definition serialSchedule (sched : list task) : Prop :=
  exists a b c, [a; b; c] ≡ₚ [NormalTask; InternalTask; TokenTask] /\
                sched = [a; a; b; b; c; c].

Section Analyzers.

Variable rt : GoRuntime.

(** [AnalyzeBeneficiary address], for a schedule of the three fetches: the
    possible return values. *)
Inductive AnalyzeBeneficiary (c : Client) (sched : list task) (address : string)
  : slice Beneficiary.t * option error -> Prop :=
| AnalyzeBeneficiary_error (e : error) :
    groupErr (runSchedule (fetchAll c address) sched) = Some e ->
    AnalyzeBeneficiary c sched address (nilSlice, Some e)
| AnalyzeBeneficiary_ok (beneficiaries : list Beneficiary.t) :
    let st := runSchedule (fetchAll c address) sched in
    groupErr st = None ->
    rangeValues
      (buildBeneficiaryMap rt address (elems (normalTxs st)) (elems (internalTxs st))
         (elems (tokenTransfers st)))
      beneficiaries ->
    AnalyzeBeneficiary c sched address (Slice beneficiaries, None).

(** [AnalyzePayer address]. *)
Inductive AnalyzePayer (c : Client) (sched : list task) (address : string)
  : slice Payer.t * option error -> Prop :=
| AnalyzePayer_error (e : error) :
    groupErr (runSchedule (fetchAll c address) sched) = Some e ->
    AnalyzePayer c sched address (nilSlice, Some e)
| AnalyzePayer_ok (payers : list Payer.t) :
    let st := runSchedule (fetchAll c address) sched in
    groupErr st = None ->
    rangeValues
      (buildPayerMap rt address (elems (normalTxs st)) (elems (internalTxs st))
         (elems (tokenTransfers st)))
      payers ->
    AnalyzePayer c sched address (Slice payers, None).

End Analyzers.

(* ===================================================================== *)
(** ** The aggregation engine as the specification words it

    One aggregate per counterparty, kept in a sequence in the order in
    which the counterparties are first met; the records are scanned source
    by source: normal transactions, internal transactions, token transfers. *)

Module Engine.

Record Aggregate : Type := {
  address : string; totalAmount : float64; transactions : list TransactionDetails
}.

Inductive Direction : Type := Outgoing | Incoming.

Definition newAggregate (key : string) (d : TransactionDetails) : Aggregate :=
  {| address := key; totalAmount := TxAmount d; transactions := [d] |}.

Definition addDetail (a : Aggregate) (d : TransactionDetails) : Aggregate :=
  {| address := address a;
     totalAmount := f64add (totalAmount a) (TxAmount d);
     transactions := (transactions a ++ [d])%list |}.

(** Append to the aggregate of [key] if there is one, else add a new
    aggregate at the end. *)
Fixpoint upsert (aggs : list Aggregate) (key : string) (d : TransactionDetails)
  : list Aggregate :=
  match aggs with
  | [] => [newAggregate key d]
  | a :: rest =>
      if String.eqb (address a) key then addDetail a d :: rest
      else a :: upsert rest key d
  end.

Definition aggregate (entries : list (string * TransactionDetails)) : list Aggregate :=
  fold_left (fun aggs e => upsert aggs (fst e) (snd e)) entries [].

Section Selection.

Variable rt : GoRuntime.

(** The counterparty key and the detail of a record that passes the
    direction filter and the error exclusion. *)
Definition txEntry (dir : Direction) (queried : string) (tx : Transaction.t)
  : option (string * TransactionDetails) :=
  let endpoint := match dir with
                  | Outgoing => Transaction.From tx
                  | Incoming => Transaction.To tx
                  end in
  let key := match dir with
             | Outgoing => Transaction.To tx
             | Incoming => Transaction.From tx
             end in
  if EqualFold rt endpoint queried && String.eqb (Transaction.IsError tx) "0"
  then Some (key, makeDetails rt (Transaction.Value tx) (Transaction.Hash tx)
                    (Transaction.TimeStamp tx))
  else None.

Definition tokenEntry (dir : Direction) (queried : string) (tr : TokenTransfer.t)
  : option (string * TransactionDetails) :=
  let endpoint := match dir with
                  | Outgoing => TokenTransfer.From tr
                  | Incoming => TokenTransfer.To tr
                  end in
  let key := match dir with
             | Outgoing => TokenTransfer.To tr
             | Incoming => TokenTransfer.From tr
             end in
  if EqualFold rt endpoint queried
  then Some (key, makeDetails rt (TokenTransfer.Value tr) (TokenTransfer.Hash tr)
                    (TokenTransfer.TimeStamp tr))
  else None.

(** The contributing records, in encounter order. *)
Definition entries (dir : Direction) (queried : string)
    (normal internal : list Transaction.t) (tokens : list TokenTransfer.t)
  : list (string * TransactionDetails) :=
  (omap (txEntry dir queried) normal ++ omap (txEntry dir queried) internal ++
   omap (tokenEntry dir queried) tokens)%list.

End Selection.

End Engine.

Definition ofBeneficiary (b : Beneficiary.t) : Engine.Aggregate :=
  {| Engine.address := Beneficiary.Address b;
     Engine.totalAmount := Beneficiary.Amount b;
     Engine.transactions := Beneficiary.Transactions b |}.

Definition ofPayer (p : Payer.t) : Engine.Aggregate :=
  {| Engine.address := Payer.Address p;
     Engine.totalAmount := Payer.Amount p;
     Engine.transactions := Payer.Transactions p |}.

(** Floating-point sums, accumulated from left to right. *)
Definition sumFloat (l : list float64) : float64 := fold_left f64add l f64zero.

(** The total an aggregate accumulates over its details: seeded with the
    first amount, the others added in order. *)
Definition runningTotal (ds : list TransactionDetails) : float64 :=
  match ds with
  | [] => f64zero
  | d :: ds' => fold_left f64add (TxAmount <$> ds') (TxAmount d)
  end.


(** The three fetches of an analysis all returned a nil error. *)
Definition fetchedOk (f : Fetched) : Prop :=
  snd (fetchedNormal f) = None /\ snd (fetchedInternal f) = None /\
  snd (fetchedToken f) = None.

Definition normalRecords (f : Fetched) : list Transaction.t := elems (fst (fetchedNormal f)).
Definition internalRecords (f : Fetched) : list Transaction.t := elems (fst (fetchedInternal f)).
Definition tokenRecords (f : Fetched) : list TokenTransfer.t := elems (fst (fetchedToken f)).




(* ===================================================================== *)
(** ** Concrete runtimes, responses and clients used in examples *)

(** A runtime in the UTC zone. *)
Definition utcRuntime (fold : string -> string -> bool)
    (scan : string -> spec_float * bool) : GoRuntime :=
  {| foldUnicode := fold; zoneOffset := fun _ => 0; scanExtended := scan |}.

(** A successful response carrying [records]. *)
Definition okBody {A} (records : list A) : responseBody A :=
  {| asResponse := inr ("1", "OK", Slice records);
     asErrorResult := inl "json: cannot unmarshal array into Go struct field" |}.

(** The provider's answer when an address has no records. *)
Definition emptyBody {A} : responseBody A :=
  {| asResponse := inr ("0", "No transactions found", Slice []);
     asErrorResult := inl "json: cannot unmarshal array into Go struct field" |}.

(** A network that answers every request of one kind in the same way. *)
Definition constNetwork (normal internal : getOutcome Transaction.t)
    (tokens : getOutcome TokenTransfer.t) (address key : string) : Network :=
  {| getTransactions := fun endpoint _ =>
       if String.eqb endpoint (endpointFor "txlist" address key) then normal else internal;
     getTokenTransfers := fun _ _ => tokens |}.

Definition constClient (normal internal : getOutcome Transaction.t)
    (tokens : getOutcome TokenTransfer.t) (address : string) : Client :=
  {| apiKey := "KEY"; httpClient := constNetwork normal internal tokens address "KEY" |}.

(** A network whose requests fail until the [k]-th, which is answered. *)
Definition flakyGet {A} (k : nat) (failure : error) (answer : httpResponse A)
  : nat -> getOutcome A :=
  fun i => if (i <? k)%nat then inl failure else inr answer.

Definition mkTx (from to value hash ts isError : string) : Transaction.t :=
  {| Transaction.Hash := hash; Transaction.TimeStamp := ts; Transaction.From := from;
     Transaction.To := to; Transaction.Value := value; Transaction.IsError := isError |}.

Definition mkTransfer (from to value hash ts : string) : TokenTransfer.t :=
  {| TokenTransfer.Hash := hash; TokenTransfer.TimeStamp := ts; TokenTransfer.From := from;
     TokenTransfer.To := to; TokenTransfer.Value := value;
     TokenTransfer.TokenName := "Token"; TokenTransfer.TokenSymbol := "TKN" |}.

(** The map update of [processBeneficiary] and [processPayer], seen on
    aggregates of the specification. *)
Definition mapStep (m : gmap string Engine.Aggregate) (e : string * TransactionDetails)
  : gmap string Engine.Aggregate :=
  match m !! e.1 with
  | Some a => <[e.1 := Engine.addDetail a e.2]> m
  | None => <[e.1 := Engine.newAggregate e.1 e.2]> m
  end.

Definition keyed (a : Engine.Aggregate) : string * Engine.Aggregate :=
  (Engine.address a, a).

(* ===================================================================== *)
(** The state of a run in which no fetch has failed: the shared [err] and
    the error of the group are nil, and a goroutine that has taken its
    first step has stored the slice it fetched. *)
Definition quietState (f : Fetched) (st : GroupState) : Prop :=
  err st = None /\ groupErr st = None /\
  normalTxs st = (if pcNormal st is O then nilSlice else fst (fetchedNormal f)) /\
  internalTxs st = (if pcInternal st is O then nilSlice else fst (fetchedInternal f)) /\
  tokenTransfers st = (if pcToken st is O then nilSlice else fst (fetchedToken f)).

(** A runtime, a schedule and clients for the examples. *)
Definition exampleRuntime : GoRuntime :=
  utcRuntime (fun _ _ => false) (fun _ => (S754_zero false, false)).

Definition serialRun : list task :=
  [NormalTask; NormalTask; InternalTask; InternalTask; TokenTask; TokenTask].

(** A client whose three requests are answered with the given records. *)
Definition recordsClient (normal internal : list Transaction.t)
    (tokens : list TokenTransfer.t) (address : string) : Client :=
  constClient (inr (Body (okBody normal))) (inr (Body (okBody internal)))
    (inr (Body (okBody tokens))) address.

Definition txToB : Transaction.t :=
  mkTx "0xA" "0xB" "1000000000000000000" "h1" "1690000000" "0".
Definition txToC : Transaction.t :=
  mkTx "0xA" "0xC" "500000000000000000" "h2" "1690000001" "0".

Definition detailOf (rt : GoRuntime) (tx : Transaction.t) : TransactionDetails :=
  makeDetails rt (Transaction.Value tx) (Transaction.Hash tx) (Transaction.TimeStamp tx).

(** The endpoint a direction filters on, and the endpoint it keys by. *)
Definition txEndpoint (dir : Engine.Direction) (tx : Transaction.t) : string :=
  match dir with
  | Engine.Outgoing => Transaction.From tx
  | Engine.Incoming => Transaction.To tx
  end.

Definition txKey (dir : Engine.Direction) (tx : Transaction.t) : string :=
  match dir with
  | Engine.Outgoing => Transaction.To tx
  | Engine.Incoming => Transaction.From tx
  end.

Definition tokenEndpoint (dir : Engine.Direction) (tr : TokenTransfer.t) : string :=
  match dir with
  | Engine.Outgoing => TokenTransfer.From tr
  | Engine.Incoming => TokenTransfer.To tr
  end.

Definition tokenKey (dir : Engine.Direction) (tr : TokenTransfer.t) : string :=
  match dir with
  | Engine.Outgoing => TokenTransfer.To tr
  | Engine.Incoming => TokenTransfer.From tr
  end.

Definition tokenDetailOf (rt : GoRuntime) (tr : TokenTransfer.t) : TransactionDetails :=
  makeDetails rt (TokenTransfer.Value tr) (TokenTransfer.Hash tr)
    (TokenTransfer.TimeStamp tr).

(** All byte values, and the outcome of one iteration of the byte loop of
    [strings.EqualFold] on a pair of ASCII bytes that fold together. *)
Definition allBytes : list ascii := List.map ascii_of_nat (seq 0 256).

Definition foldsTogether (c d : ascii) : bool :=
  negb (RuneSelf <=? Z.lor (byteVal c) (byteVal d)) &&
  ((byteVal d =? byteVal c) ||
   ((65 <=? Z.min (byteVal c) (byteVal d)) && (Z.min (byteVal c) (byteVal d) <=? 90) &&
    (Z.max (byteVal c) (byteVal d) =? Z.min (byteVal c) (byteVal d) + 97 - 65))).

Definition sameLetter (c d : ascii) : bool :=
  isASCII c && isASCII d && Ascii.eqb (lowerByte c) (lowerByte d).

(** Records of the example for sums: two small transfers to 0xB around a
    large one to 0xC. *)
Definition smallToB1 : Transaction.t := mkTx "0xA" "0xB" "100" "h1" "1690000000" "0".
Definition largeToC : Transaction.t :=
  mkTx "0xA" "0xC" "1000000000000000000" "h2" "1690000001" "0".
Definition smallToB2 : Transaction.t := mkTx "0xA" "0xB" "100" "h3" "1690000002" "0".

Definition upperCaseTx : Transaction.t :=
  mkTx "0xABC" "0xB" "1000000000000000000" "h1" "1690000000" "0".

Definition succeeded (tx : Transaction.t) : Prop := Transaction.IsError tx = "0"%string.


#[global] Instance succeeded_dec (tx : Transaction.t) : Decision (succeeded tx).
Proof. unfold succeeded. apply _. Defined.

Definition failedTx : Transaction.t :=
  mkTx "0xA" "0xD" "1000000000000000000" "h9" "1690000009" "1".
Definition transferToE : TokenTransfer.t :=
  mkTransfer "0xA" "0xE" "500000000000000000" "h5" "1690000005".


(** A client whose every request fails once at the transport and is then
    answered with the given records. *)
Definition flakyClient (txs : list Transaction.t) (tokens : list TokenTransfer.t) : Client :=
  {| apiKey := "KEY";
     httpClient :=
       {| getTransactions := fun _ => flakyGet 1 "connection reset" (Body (okBody txs));
          getTokenTransfers := fun _ => flakyGet 1 "connection reset" (Body (okBody tokens)) |} |}.

(** A schedule in which the goroutine of the internal transactions assigns
    the shared [err] between the assignment and the test of the goroutine of
    the normal transactions. *)
Definition racySchedule : list task :=
  [NormalTask; InternalTask; NormalTask; InternalTask; TokenTask; TokenTask].

(** A client whose normal-transaction request fails at the transport and
    whose other requests are answered. *)
Definition normalDownClient (internal : list Transaction.t)
    (tokens : list TokenTransfer.t) (address : string) : Client :=
  constClient (inl "connection refused") (inr (Body (okBody internal)))
    (inr (Body (okBody tokens))) address.


(** A client whose normal-transaction and token-transfer requests are
    answered with the provider's no-records response. *)
Definition onlyInternalClient (internal : list Transaction.t) (address : string) : Client :=
  constClient (inr (Body emptyBody)) (inr (Body (okBody internal)))
    (inr (Body emptyBody)) address.

Definition noRecords {A} (b : responseBody A) : Prop :=
  exists result, asResponse b = inr ("0"%string, "No transactions found"%string, result).











(** The provider's answer when the request rate is exceeded: the result
    member is a string, which does not decode as an array of records. *)
Definition rateLimitBody {A} : responseBody A :=
  {| asResponse := inl "json: cannot unmarshal string into Go struct field";
     asErrorResult := inr ("0", "NOTOK", "Max rate limit reached") |}.

(** A client every request of which fails at the transport. *)
Definition downClient : Client :=
  {| apiKey := "KEY";
     httpClient := {| getTransactions := fun _ _ => inl "connection refused";
                      getTokenTransfers := fun _ _ => inl "connection refused" |} |}.




(** A schedule in which the goroutine of the normal transactions assigns
    the shared [err] between the assignment and the test of the goroutine of
    the token transfers. *)
Definition blamingSchedule : list task :=
  [TokenTask; NormalTask; TokenTask; NormalTask; InternalTask; InternalTask].


(** [prefix] is the message of the goroutine whose fetch returned [e]. *)
Definition ownError (f : Fetched) (prefix : string) (e : error) : Prop :=
  (prefix = "error fetching normal transactions"%string /\ snd (fetchedNormal f) = Some e) \/
  (prefix = "error fetching internal transactions"%string /\
   snd (fetchedInternal f) = Some e) \/
  (prefix = "error fetching token transfers"%string /\ snd (fetchedToken f) = Some e).

#[global] Instance task_eq_dec : EqDecision task.
Proof. solve_decision. Defined.


(** A record with its two endpoints exchanged. *)
Definition swapTx (tx : Transaction.t) : Transaction.t :=
  {| Transaction.Hash := Transaction.Hash tx; Transaction.TimeStamp := Transaction.TimeStamp tx;
     Transaction.From := Transaction.To tx; Transaction.To := Transaction.From tx;
     Transaction.Value := Transaction.Value tx; Transaction.IsError := Transaction.IsError tx |}.

Definition swapTransfer (tr : TokenTransfer.t) : TokenTransfer.t :=
  {| TokenTransfer.Hash := TokenTransfer.Hash tr;
     TokenTransfer.TimeStamp := TokenTransfer.TimeStamp tr;
     TokenTransfer.From := TokenTransfer.To tr; TokenTransfer.To := TokenTransfer.From tr;
     TokenTransfer.Value := TokenTransfer.Value tr;
     TokenTransfer.TokenName := TokenTransfer.TokenName tr;
     TokenTransfer.TokenSymbol := TokenTransfer.TokenSymbol tr |}.

(** On two ASCII bytes the loop of [strings.EqualFold] stays on its fast
    path and goes on exactly when the bytes are the same letter. *)
Definition asciiPairOk (c d : ascii) : bool :=
  implb (isASCII c && isASCII d)
    (negb (RuneSelf <=? Z.lor (byteVal c) (byteVal d)) &&
     Bool.eqb (foldsTogether c d) (sameLetter c d)).

(** Two transactions to the same counterparty, spelled in two ways. *)
Definition txToUpperAB : Transaction.t :=
  mkTx "0xA" "0xAB" "1000000000000000000" "h1" "1690000000" "0".
Definition txToLowerAB : Transaction.t :=
  mkTx "0xA" "0xab" "500000000000000000" "h2" "1690000001" "0".


(* ===================================================================== *)
(** ** stringToInt64 *)

(** [i.IsInt64 ()]. *)
Definition IsInt64 (i : Z) : bool := (- 2 ^ 63 <=? i) && (i <? 2 ^ 63).

(** [stringToInt64]: [big.Int.SetString (s, 10)] reads an optional sign and
    a non-empty run of decimal digits that must end the string; the value
    must then fit an int64. *)
Definition stringToInt64 (s : string) : Z * option error :=
  let (neg, r) := scanSign s in
  match scanDigits r 0 0 with
  | (_, O, _) => (0, Some ("failed to parse string to int: " ++ s)%string)
  | (n, S _, rest) =>
      if String.eqb rest "" then
        let i := if neg then - n else n in
        if IsInt64 i then (i, None)
        else (0, Some ("value too large for int64: " ++ s)%string)
      else (0, Some ("failed to parse string to int: " ++ s)%string)
  end.

Fixpoint digitsOnly (s : string) : bool :=
  match s with
  | EmptyString => true
  | String c s' => isDigit c && digitsOnly s'
  end.


(* ===================================================================== *)
(** ** GetLatestBlockNumber *)

(** The value of a byte as a digit of [strconv.ParseUint] in base 16. *)
Definition hexVal (c : ascii) : option Z :=
  if isDigit c then Some (byteVal c - 48)
  else
    let lower := Z.lor (byteVal c) 32 in
    if (97 <=? lower) && (lower <=? 122) then
      let d := lower - 97 + 10 in
      if d <? 16 then Some d else None
    else None.

Fixpoint parseHexDigits (s : string) (acc : Z) : option Z :=
  match s with
  | EmptyString => Some acc
  | String c s' =>
      match hexVal c with
      | Some d => parseHexDigits s' (16 * acc + d)
      | None => None
      end
  end.

(** [strconv.ParseInt (s, 16, 64)]; [None] stands for a non-nil error. *)
Definition ParseIntBase16 (s : string) : option Z :=
  match s with
  | EmptyString => None
  | String c s' =>
      let neg := byteVal c =? 45 in
      let body := if (byteVal c =? 43) || (byteVal c =? 45) then s' else s in
      match body with
      | EmptyString => None
      | _ =>
          match parseHexDigits body 0 with
          | None => None
          | Some un =>
              let cutoff := 2 ^ 63 in
              if negb neg && (cutoff <=? un) then None
              else if neg && (cutoff <? un) then None
              else Some (if neg then - un else un)
          end
      end
  end.

(** What the single request of [GetLatestBlockNumber] comes to: a transport
    error, an unreadable body, a body that does not decode, or the [result]
    member of the decoded body (empty when the member is missing). *)
Inductive blockReply : Type :=
| BlockTransportError (err : error)
| BlockBodyUnreadable (err : error)
| BlockUndecodable (err : error)
| BlockDecoded (result : string).

Inductive blockOutcome : Type :=
| BlockPanic
| BlockReturn (blockNumber : Z) (err : option error).

(** [numError s] is the text of the error of [strconv.ParseInt] on [s].  The
    slice expression [result.Result[2:]] panics on a string of fewer than two
    bytes.  [int] is taken to be 64 bits wide. *)
Definition GetLatestBlockNumber (numError : string -> error) (reply : blockReply)
  : blockOutcome :=
  match reply with
  | BlockTransportError err =>
      BlockReturn 0 (Some (wrapError "error fetching latest block" err))
  | BlockBodyUnreadable err =>
      BlockReturn 0 (Some (wrapError "error reading response body" err))
  | BlockUndecodable err =>
      BlockReturn 0 (Some (wrapError "error unmarshaling response" err))
  | BlockDecoded result =>
      match result with
      | String _ (String _ digits) =>
          match ParseIntBase16 digits with
          | Some blockNumber => BlockReturn blockNumber None
          | None =>
              BlockReturn 0 (Some (wrapError "error parsing block number" (numError digits)))
          end
      | _ => BlockPanic
      end
  end.

(** The hexadecimal numeral of a block number, as a node writes it. *)
Definition hexChar (d : Z) : ascii :=
  ascii_of_N (Z.to_N (if d <? 10 then 48 + d else 87 + d)).

Fixpoint hexDigits (fuel : nat) (u : Z) (acc : string) : string :=
  match fuel with
  | O => acc
  | S fuel' =>
      let acc' := String (hexChar (u mod 16)) acc in
      if u <? 16 then acc' else hexDigits fuel' (u / 16) acc'
  end.

Definition hexQuantity (n : Z) : string :=
  String "0" (String "x" (hexDigits (S (Z.to_nat (Z.log2 n))) n "")).


(* ===================================================================== *)
(** ** The HTTP handlers *)

Module Api.

Record TransactionDetails : Type := {
  TxAmount : float64; DateTime : string; TransactionID : string
}.

Record BeneficiaryData : Type := {
  BeneficiaryAddress : string; BeneficiaryAmount : float64;
  BeneficiaryTransactions : slice TransactionDetails
}.

Record PayerData : Type := {
  PayerAddress : string; PayerAmount : float64;
  PayerTransactions : slice TransactionDetails
}.

(** The payloads handed to [respondWithJSON]. *)
Inductive payload : Type :=
| BeneficiaryResponse (message : string) (data : slice BeneficiaryData)
| PayerResponse (message : string) (data : slice PayerData)
| ErrorResponse (message : string) (error : string).

(** What a handler writes: status code, [Content-Type] and the payload
    that was marshalled into the body. *)
Record response : Type := {
  code : Z; contentType : string; body : payload
}.

End Api.

Definition StatusOK : Z := 200.
Definition StatusBadRequest : Z := 400.
Definition StatusInternalServerError : Z := 500.

(** [json.Marshal] refuses a float64 that is infinite or not a number. *)
Definition isFinite (x : float64) : bool :=
  match x with
  | S754_zero _ | S754_finite _ _ _ => true
  | _ => false
  end.

Definition detailsMarshal (ds : slice Api.TransactionDetails) : bool :=
  forallb (fun d => isFinite (Api.TxAmount d)) (elems ds).

Definition marshals (p : Api.payload) : bool :=
  match p with
  | Api.BeneficiaryResponse _ data =>
      forallb (fun b => isFinite (Api.BeneficiaryAmount b) &&
                        detailsMarshal (Api.BeneficiaryTransactions b)) (elems data)
  | Api.PayerResponse _ data =>
      forallb (fun p => isFinite (Api.PayerAmount p) &&
                        detailsMarshal (Api.PayerTransactions p)) (elems data)
  | Api.ErrorResponse _ _ => true
  end.

(** [respondWithJSON]; when marshalling fails it calls [respondWithError],
    whose payload of two strings always marshals. *)
Definition respondWithJSON (code : Z) (p : Api.payload) : Api.response :=
  if marshals p
  then {| Api.code := code; Api.contentType := "application/json"; Api.body := p |}
  else {| Api.code := StatusInternalServerError; Api.contentType := "application/json";
          Api.body := Api.ErrorResponse "error" "Error creating response" |}.

Definition respondWithError (code : Z) (message : string) : Api.response :=
  respondWithJSON code (Api.ErrorResponse "error" message).

Definition toApiDetails (tx : TransactionDetails) : Api.TransactionDetails :=
  {| Api.TxAmount := TxAmount tx; Api.DateTime := DateTime tx;
     Api.TransactionID := TransactionID tx |}.

Definition toBeneficiaryData (b : Beneficiary.t) : Api.BeneficiaryData :=
  {| Api.BeneficiaryAddress := Beneficiary.Address b;
     Api.BeneficiaryAmount := Beneficiary.Amount b;
     Api.BeneficiaryTransactions := Slice (toApiDetails <$> Beneficiary.Transactions b) |}.

Definition toPayerData (p : Payer.t) : Api.PayerData :=
  {| Api.PayerAddress := Payer.Address p;
     Api.PayerAmount := Payer.Amount p;
     Api.PayerTransactions := Slice (toApiDetails <$> Payer.Transactions p) |}.

(** [HandleBeneficiary], for the [address] parameter of the query (empty
    when absent); [analyze] is what [AnalyzeBeneficiary] returns if called. *)
Definition HandleBeneficiary (address : string)
    (analyze : string -> slice Beneficiary.t * option error) : Api.response :=
  if String.eqb address "" then
    respondWithError StatusBadRequest "address parameter is required"
  else
    let (beneficiaries, err) := analyze address in
    match err with
    | Some e => respondWithError StatusInternalServerError e
    | None =>
        respondWithJSON StatusOK
          (Api.BeneficiaryResponse "success"
             (Slice (toBeneficiaryData <$> elems beneficiaries)))
    end.

Definition HandlePayer (address : string)
    (analyze : string -> slice Payer.t * option error) : Api.response :=
  if String.eqb address "" then
    respondWithError StatusBadRequest "address parameter is required"
  else
    let (payers, err) := analyze address in
    match err with
    | Some e => respondWithError StatusInternalServerError e
    | None =>
        respondWithJSON StatusOK
          (Api.PayerResponse "success" (Slice (toPayerData <$> elems payers)))
    end.

(** The floats of a list of aggregates can all be marshalled. *)
Definition beneficiariesMarshal (bs : list Beneficiary.t) : bool :=
  forallb (fun b => isFinite (Beneficiary.Amount b) &&
                    forallb (fun d => isFinite (TxAmount d)) (Beneficiary.Transactions b)) bs.

Definition payersMarshal (ps : list Payer.t) : bool :=
  forallb (fun p => isFinite (Payer.Amount p) &&
                    forallb (fun d => isFinite (TxAmount d)) (Payer.Transactions p)) ps.

(** A transaction whose value is an infinity literal. *)
Definition infiniteTx : Transaction.t :=
  mkTx "0xA" "0xB" "Inf" "h1" "1690000000" "0".

(** The responses of the beneficiary endpoint for a client and a schedule:
    the handler calls the analyzer only for a non-empty address. *)
Definition servedBeneficiary (rt : GoRuntime) (c : Client) (sched : list task)
    (address : string) (r : Api.response) : Prop :=
  exists analyze,
    (address <> ""%string -> AnalyzeBeneficiary rt c sched address (analyze address)) /\
    r = HandleBeneficiary address analyze.


(* ===================================================================== *)
(** ** Configuration and start-up *)

Record Config : Type := { EtherscanAPIKey : string; Port : string }.

(** [config.LoadConfig], on the environment as it is once [godotenv.Load]
    has run. *)
Definition LoadConfig (getenv : string -> string) : Config + error :=
  let etherscanAPIKey := getenv "ETHERSCAN_API_KEY" in
  if String.eqb etherscanAPIKey "" then
    inr "ETHERSCAN_API_KEY environment variable is required"
  else
    let port := getenv "PORT" in
    let port := if String.eqb port "" then "8080" else port in
    inl {| EtherscanAPIKey := etherscanAPIKey; Port := port |}.

(** The parsed command-line flags. *)
Record Flags : Type := {
  showHelp : bool; addressFlag : string; modeFlag : string; portFlag : string
}.

(** How [main] ends: [os.Exit], [log.Fatalf], or the call of
    [http.ListenAndServe] in [Server.Start], with the address listened on
    and what the server and its router were set up with. *)
Inductive mainOutcome : Type :=
| Exit (code : Z)
| Fatal (message : string)
| ListenAndServe (addr : string) (apiKey defaultAddress analysisMode : string).

Definition main (flags : Flags) (getenv : string -> string) : mainOutcome :=
  if showHelp flags then Exit 0
  else if negb (String.eqb (modeFlag flags) "beneficiary") &&
          negb (String.eqb (modeFlag flags) "payer") &&
          negb (String.eqb (modeFlag flags) "both")
  then Exit 1
  else
    match LoadConfig getenv with
    | inr err => Fatal ("Failed to load configuration: " ++ err)%string
    | inl cfg =>
        let port := if negb (String.eqb (portFlag flags) "") then portFlag flags
                    else Port cfg in
        ListenAndServe (":" ++ port)%string (EtherscanAPIKey cfg)
          (addressFlag flags) (modeFlag flags)
    end.

(** An environment that sets the key only. *)
Definition keyOnlyEnv (name : string) : string :=
  if String.eqb name "ETHERSCAN_API_KEY" then "KEY" else "".

(* ===================================================================== *)
(** * Properties *)

Local Open Scope list_scope.

(** ** The maps built by the analyzers refine the specification's engine *)

Section Refinement.

Variable rt : GoRuntime.

Lemma processBeneficiary_view m k v h ts :
  ofBeneficiary <$> processBeneficiary rt m k v h ts =
  mapStep (ofBeneficiary <$> m) (k, makeDetails rt v h ts).
Proof.
  unfold processBeneficiary, mapStep; simpl.
  rewrite lookup_fmap.
  destruct (m !! k) as [b|]; simpl; by rewrite fmap_insert.
Qed.

Lemma processPayer_view m k v h ts :
  ofPayer <$> processPayer rt m k v h ts =
  mapStep (ofPayer <$> m) (k, makeDetails rt v h ts).
Proof.
  unfold processPayer, mapStep; simpl.
  rewrite lookup_fmap.
  destruct (m !! k) as [b|]; simpl; by rewrite fmap_insert.
Qed.

Lemma beneficiaryTx_loop_view a l m :
  ofBeneficiary <$> fold_left (beneficiaryTxStep rt a) l m =
  fold_left mapStep (omap (Engine.txEntry rt Engine.Outgoing a) l) (ofBeneficiary <$> m).
Proof.
  revert m; induction l as [|tx l IH]; intros m; simpl; [done|].
  rewrite IH. unfold beneficiaryTxStep, Engine.txEntry.
  destruct (EqualFold rt (Transaction.From tx) a && String.eqb (Transaction.IsError tx) "0");
    simpl; [|done].
  by rewrite processBeneficiary_view.
Qed.

Lemma beneficiaryToken_loop_view a l m :
  ofBeneficiary <$> fold_left (beneficiaryTokenStep rt a) l m =
  fold_left mapStep (omap (Engine.tokenEntry rt Engine.Outgoing a) l) (ofBeneficiary <$> m).
Proof.
  revert m; induction l as [|tr l IH]; intros m; simpl; [done|].
  rewrite IH. unfold beneficiaryTokenStep, Engine.tokenEntry.
  destruct (EqualFold rt (TokenTransfer.From tr) a); simpl; [|done].
  by rewrite processBeneficiary_view.
Qed.

Lemma payerTx_loop_view a l m :
  ofPayer <$> fold_left (payerTxStep rt a) l m =
  fold_left mapStep (omap (Engine.txEntry rt Engine.Incoming a) l) (ofPayer <$> m).
Proof.
  revert m; induction l as [|tx l IH]; intros m; simpl; [done|].
  rewrite IH. unfold payerTxStep, Engine.txEntry.
  destruct (EqualFold rt (Transaction.To tx) a && String.eqb (Transaction.IsError tx) "0");
    simpl; [|done].
  by rewrite processPayer_view.
Qed.

Lemma payerToken_loop_view a l m :
  ofPayer <$> fold_left (payerTokenStep rt a) l m =
  fold_left mapStep (omap (Engine.tokenEntry rt Engine.Incoming a) l) (ofPayer <$> m).
Proof.
  revert m; induction l as [|tr l IH]; intros m; simpl; [done|].
  rewrite IH. unfold payerTokenStep, Engine.tokenEntry.
  destruct (EqualFold rt (TokenTransfer.To tr) a); simpl; [|done].
  by rewrite processPayer_view.
Qed.

(** The beneficiary map, viewed on aggregates, is the fold of [mapStep]
    over the contributing records in encounter order. *)
Lemma buildBeneficiaryMap_view a ns ins ts :
  ofBeneficiary <$> buildBeneficiaryMap rt a ns ins ts =
  fold_left mapStep (Engine.entries rt Engine.Outgoing a ns ins ts) ∅.
Proof.
  unfold buildBeneficiaryMap, Engine.entries.
  rewrite beneficiaryToken_loop_view, !beneficiaryTx_loop_view, fmap_empty.
  by rewrite !fold_left_app.
Qed.

Lemma buildPayerMap_view a ns ins ts :
  ofPayer <$> buildPayerMap rt a ns ins ts =
  fold_left mapStep (Engine.entries rt Engine.Incoming a ns ins ts) ∅.
Proof.
  unfold buildPayerMap, Engine.entries.
  rewrite payerToken_loop_view, !payerTx_loop_view, fmap_empty.
  by rewrite !fold_left_app.
Qed.

End Refinement.

(** ** A map step is an upsert on the insertion-ordered sequence *)

Lemma upsert_keys l k d :
  Engine.address <$> Engine.upsert l k d =
  if decide (k ∈ Engine.address <$> l) then Engine.address <$> l
  else (Engine.address <$> l) ++ [k].
Proof.
  induction l as [|a l IH].
  - simpl. destruct (decide (k ∈ [])) as [H|H]; [by apply elem_of_nil in H|done].
  - cbn [Engine.upsert]. rewrite (fmap_cons Engine.address a l).
    destruct (String.eqb_spec (Engine.address a) k) as [Heq|Hne].
    + rewrite fmap_cons. cbn [Engine.addDetail Engine.address].
      destruct (decide (k ∈ Engine.address a :: (Engine.address <$> l))) as [H|H];
        [done|]. exfalso; apply H; rewrite Heq; left.
    + rewrite fmap_cons, IH.
      destruct (decide (k ∈ Engine.address <$> l)) as [H1|H1];
        destruct (decide (k ∈ Engine.address a :: (Engine.address <$> l))) as [H2|H2];
        try done.
      * exfalso; apply H2; by right.
      * apply elem_of_cons in H2 as [->|H2]; [done|contradiction].
Qed.

Lemma upsert_NoDup l k d :
  NoDup (Engine.address <$> l) -> NoDup (Engine.address <$> Engine.upsert l k d).
Proof.
  intros Hnd. rewrite upsert_keys. case_decide as H; [done|].
  apply NoDup_app; split_and!; [done| |apply NoDup_singleton].
  intros x Hx Hk. apply list_elem_of_singleton in Hk as ->. contradiction.
Qed.

Lemma mapStep_upsert l k d :
  mapStep (list_to_map (keyed <$> l)) (k, d) =
  list_to_map (keyed <$> Engine.upsert l k d).
Proof.
  induction l as [|a l IH].
  - unfold mapStep; simpl. by rewrite lookup_empty.
  - cbn [Engine.upsert]. rewrite (fmap_cons keyed a l).
    change (list_to_map (keyed a :: (keyed <$> l)) : gmap string Engine.Aggregate)
      with (<[Engine.address a := a]> (list_to_map (keyed <$> l) : gmap string Engine.Aggregate)).
    destruct (String.eqb_spec (Engine.address a) k) as [Heq|Hne].
    + rewrite fmap_cons.
      change (list_to_map (keyed (Engine.addDetail a d) :: (keyed <$> l))
              : gmap string Engine.Aggregate)
        with (<[Engine.address a := Engine.addDetail a d]>
                (list_to_map (keyed <$> l) : gmap string Engine.Aggregate)).
      rewrite Heq. unfold mapStep; cbn [fst snd].
      rewrite lookup_insert_eq. by rewrite insert_insert_eq.
    + rewrite fmap_cons.
      change (list_to_map (keyed a :: (keyed <$> Engine.upsert l k d))
              : gmap string Engine.Aggregate)
        with (<[Engine.address a := a]>
                (list_to_map (keyed <$> Engine.upsert l k d) : gmap string Engine.Aggregate)).
      rewrite <- IH. unfold mapStep; cbn [fst snd].
      rewrite lookup_insert_ne by done.
      destruct (list_to_map (keyed <$> l) !! k); by rewrite insert_insert_ne.
Qed.

Lemma aggregate_from_NoDup es l :
  NoDup (Engine.address <$> l) ->
  NoDup (Engine.address <$> fold_left (fun aggs e => Engine.upsert aggs e.1 e.2) es l).
Proof.
  revert l; induction es as [|e es IH]; intros l Hnd; simpl; [done|].
  apply IH. by apply upsert_NoDup.
Qed.

Lemma aggregate_NoDup es : NoDup (Engine.address <$> Engine.aggregate es).
Proof. apply aggregate_from_NoDup. constructor. Qed.

Lemma fold_mapStep_from es l :
  fold_left mapStep es (list_to_map (keyed <$> l)) =
  list_to_map (keyed <$> fold_left (fun aggs e => Engine.upsert aggs e.1 e.2) es l).
Proof.
  revert l; induction es as [|[k d] es IH]; intros l; simpl; [done|].
  by rewrite mapStep_upsert, IH.
Qed.

(** The map built by a fold of [mapStep] holds the aggregates of the
    specification's sequence, under their addresses. *)
Lemma fold_mapStep_aggregate es :
  fold_left mapStep es ∅ = list_to_map (keyed <$> Engine.aggregate es).
Proof. apply (fold_mapStep_from es []). Qed.

Lemma keyed_fst l : (keyed <$> l).*1 = Engine.address <$> l.
Proof. by rewrite <- list_fmap_compose. Qed.

Lemma keyed_snd l : (keyed <$> l).*2 = l.
Proof. rewrite <- list_fmap_compose. apply list_fmap_id. Qed.

Lemma values_fold_mapStep es :
  (map_to_list (fold_left mapStep es ∅)).*2 ≡ₚ Engine.aggregate es.
Proof.
  rewrite fold_mapStep_aggregate.
  rewrite map_to_list_to_map.
  - by rewrite keyed_snd.
  - rewrite keyed_fst. apply aggregate_NoDup.
Qed.

Lemma rangeValues_fmap {A B} (f : A -> B) (m : gmap string A) l :
  rangeValues m l -> rangeValues (f <$> m) (f <$> l).
Proof.
  unfold rangeValues. intros ->.
  rewrite map_to_list_fmap, <- !list_fmap_compose.
  done.
Qed.

Lemma rangeValues_exists {V} (m : gmap string V) : exists l, rangeValues m l.
Proof. exists (map_to_list m).*2. unfold rangeValues. reflexivity. Qed.

(** ** Runs of the fetch group in which every fetch succeeds *)

Lemma quietState_initial f : quietState f initialState.
Proof. repeat split. Qed.

Lemma quietState_step f t st :
  fetchedOk f -> quietState f st -> quietState f (stepTask f t st).
Proof.
  intros (Hn & Hi & Ht) (He & Hg & Sn & Si & St).
  destruct t; unfold stepTask;
    [destruct (pcNormal st) as [|[|k]] eqn:Hpc
    |destruct (pcInternal st) as [|[|k]] eqn:Hpc
    |destruct (pcToken st) as [|[|k]] eqn:Hpc];
    unfold quietState; cbn; rewrite ?Hpc; repeat split; auto;
    try (unfold taskReturn; by rewrite Hg, He);
    try (by rewrite ?Sn, ?Si, ?St, ?Hpc).
Qed.

Lemma quietState_run f sched st :
  fetchedOk f -> quietState f st ->
  quietState f (fold_left (fun st t => stepTask f t st) sched st).
Proof.
  intros Hok. revert st. induction sched as [|t sched IH]; intros st Hq; simpl; [done|].
  apply IH. by apply quietState_step.
Qed.

Lemma started_step f t u st :
  (match u with
   | NormalTask => pcNormal st
   | InternalTask => pcInternal st
   | TokenTask => pcToken st
   end <> 0%nat \/ t = u) ->
  match u with
  | NormalTask => pcNormal (stepTask f t st)
  | InternalTask => pcInternal (stepTask f t st)
  | TokenTask => pcToken (stepTask f t st)
  end <> 0%nat.
Proof.
  intros H. destruct t, u; unfold stepTask;
    destruct (pcNormal st) as [|[|?]] eqn:E1;
    destruct (pcInternal st) as [|[|?]] eqn:E2;
    destruct (pcToken st) as [|[|?]] eqn:E3;
    cbn; rewrite ?E1, ?E2, ?E3; try discriminate;
    destruct H as [H|H]; try discriminate; try congruence.
Qed.

Lemma started_run f sched u st :
  (match u with
   | NormalTask => pcNormal st
   | InternalTask => pcInternal st
   | TokenTask => pcToken st
   end <> 0%nat \/ u ∈ sched) ->
  let st' := fold_left (fun st t => stepTask f t st) sched st in
  match u with
  | NormalTask => pcNormal st'
  | InternalTask => pcInternal st'
  | TokenTask => pcToken st'
  end <> 0%nat.
Proof.
  revert st. induction sched as [|t sched IH]; intros st H; simpl.
  - destruct H as [H|H]; [done|by apply elem_of_nil in H].
  - apply IH. destruct H as [H|H].
    + left. apply started_step. by left.
    + apply elem_of_cons in H as [->|H]; [|by right].
      left. apply started_step. by right.
Qed.

Lemma completeSchedule_elem sched t : completeSchedule sched -> t ∈ sched.
Proof.
  unfold completeSchedule. intros ->. destruct t; set_solver.
Qed.

(** When every fetch succeeds, a complete run ends with a nil group error
    and with the three fetched slices in place, whatever the schedule. *)
Lemma run_all_fetched f sched :
  fetchedOk f -> completeSchedule sched ->
  let st := runSchedule f sched in
  groupErr st = None /\ normalTxs st = fst (fetchedNormal f) /\
  internalTxs st = fst (fetchedInternal f) /\
  tokenTransfers st = fst (fetchedToken f).
Proof.
  intros Hok Hc. unfold runSchedule.
  destruct (quietState_run f sched initialState Hok (quietState_initial f))
    as (_ & Hg & Sn & Si & St).
  pose proof (started_run f sched NormalTask initialState
                (or_intror (completeSchedule_elem _ _ Hc))) as Pn.
  pose proof (started_run f sched InternalTask initialState
                (or_intror (completeSchedule_elem _ _ Hc))) as Pi.
  pose proof (started_run f sched TokenTask initialState
                (or_intror (completeSchedule_elem _ _ Hc))) as Pt.
  cbn zeta in *.
  split; [done|].
  destruct (pcNormal _); [done|]. destruct (pcInternal _); [done|].
  destruct (pcToken _); [done|]. done.
Qed.

Section AnalyzerRuns.

Variable rt : GoRuntime.

(** With three successful fetches [AnalyzeBeneficiary] returns exactly the
    values of the beneficiary map, in one of the orders a range over the
    map may take, and a nil error. *)
Lemma AnalyzeBeneficiary_fetched c sched a res :
  fetchedOk (fetchAll c a) -> completeSchedule sched ->
  AnalyzeBeneficiary rt c sched a res <->
  exists bs, res = (Slice bs, None) /\
    rangeValues (buildBeneficiaryMap rt a (normalRecords (fetchAll c a))
                   (internalRecords (fetchAll c a)) (tokenRecords (fetchAll c a))) bs.
Proof.
  intros Hok Hc.
  destruct (run_all_fetched _ _ Hok Hc) as (Hg & Sn & Si & St).
  unfold normalRecords, internalRecords, tokenRecords. split.
  - intros H. inversion H as [e He|bs st Hg' Hr]; subst.
    + rewrite Hg in He. discriminate.
    + exists bs. split; [done|]. subst st. by rewrite <- Sn, <- Si, <- St.
  - intros (bs & -> & Hr). apply AnalyzeBeneficiary_ok; [done|].
    by rewrite Sn, Si, St.
Qed.

Lemma AnalyzePayer_fetched c sched a res :
  fetchedOk (fetchAll c a) -> completeSchedule sched ->
  AnalyzePayer rt c sched a res <->
  exists ps, res = (Slice ps, None) /\
    rangeValues (buildPayerMap rt a (normalRecords (fetchAll c a))
                   (internalRecords (fetchAll c a)) (tokenRecords (fetchAll c a))) ps.
Proof.
  intros Hok Hc.
  destruct (run_all_fetched _ _ Hok Hc) as (Hg & Sn & Si & St).
  unfold normalRecords, internalRecords, tokenRecords. split.
  - intros H. inversion H as [e He|ps st Hg' Hr]; subst.
    + rewrite Hg in He. discriminate.
    + exists ps. split; [done|]. subst st. by rewrite <- Sn, <- Si, <- St.
  - intros (ps & -> & Hr). apply AnalyzePayer_ok; [done|].
    by rewrite Sn, Si, St.
Qed.

(** The returned aggregates are, up to their order, the sequence that the
    specification's engine builds. *)
Lemma beneficiary_values_aggregate a ns ins ts bs :
  rangeValues (buildBeneficiaryMap rt a ns ins ts) bs ->
  ofBeneficiary <$> bs ≡ₚ
  Engine.aggregate (Engine.entries rt Engine.Outgoing a ns ins ts).
Proof.
  intros H%(rangeValues_fmap ofBeneficiary).
  unfold rangeValues in H. rewrite H, buildBeneficiaryMap_view.
  apply values_fold_mapStep.
Qed.

Lemma payer_values_aggregate a ns ins ts ps :
  rangeValues (buildPayerMap rt a ns ins ts) ps ->
  ofPayer <$> ps ≡ₚ
  Engine.aggregate (Engine.entries rt Engine.Incoming a ns ins ts).
Proof.
  intros H%(rangeValues_fmap ofPayer).
  unfold rangeValues in H. rewrite H, buildPayerMap_view.
  apply values_fold_mapStep.
Qed.

End AnalyzerRuns.

(* ===================================================================== *)
(** ** Order of the returned aggregates *)

Lemma serialRun_complete : completeSchedule serialRun.
Proof. unfold completeSchedule, serialRun. reflexivity. Qed.

Lemma recordsClient_fetched ns ins ts a :
  fetchAll (recordsClient ns ins ts a) a =
  {| fetchedNormal := (Slice ns, None); fetchedInternal := (Slice ins, None);
     fetchedToken := (Slice ts, None) |}.
Proof.
  unfold fetchAll, GetNormalTransactions, GetInternalTransactions, GetTokenTransfers,
    recordsClient, constClient, constNetwork, fetchTransactions; cbn.
  rewrite String.eqb_refl.
  destruct (String.eqb_spec (endpointFor "txlistinternal" a "KEY")
              (endpointFor "txlist" a "KEY")) as [E|_]; [|reflexivity].
  exfalso. unfold endpointFor, baseURL in E. cbn in E. discriminate E.
Qed.

Lemma recordsClient_ok ns ins ts a : fetchedOk (fetchAll (recordsClient ns ins ts a) a).
Proof. rewrite recordsClient_fetched. repeat split. Qed.

(** C1 (as amended).  After three successful fetches, every list that
    [AnalyzeBeneficiary] (resp. [AnalyzePayer]) can return holds exactly the
    aggregates of the first-insertion-order sequence, each counterparty
    once, in an order that the range over the Go map leaves open; a result
    exists, and two runs on the same fetched lists return the same
    aggregates up to their order. *)
Theorem C1_aggregates_up_to_order rt c sched a :
  fetchedOk (fetchAll c a) -> completeSchedule sched ->
  let f := fetchAll c a in
  let outgoing := Engine.aggregate (Engine.entries rt Engine.Outgoing a
                    (normalRecords f) (internalRecords f) (tokenRecords f)) in
  let incoming := Engine.aggregate (Engine.entries rt Engine.Incoming a
                    (normalRecords f) (internalRecords f) (tokenRecords f)) in
  (forall res, AnalyzeBeneficiary rt c sched a res ->
     exists bs, res = (Slice bs, None) /\ ofBeneficiary <$> bs ≡ₚ outgoing /\
                NoDup (Beneficiary.Address <$> bs)) /\
  (forall res, AnalyzePayer rt c sched a res ->
     exists ps, res = (Slice ps, None) /\ ofPayer <$> ps ≡ₚ incoming /\
                NoDup (Payer.Address <$> ps)) /\
  (exists res, AnalyzeBeneficiary rt c sched a res) /\
  (exists res, AnalyzePayer rt c sched a res) /\
  (forall bs bs', AnalyzeBeneficiary rt c sched a (Slice bs, None) ->
     AnalyzeBeneficiary rt c sched a (Slice bs', None) -> bs ≡ₚ bs') /\
  (forall ps ps', AnalyzePayer rt c sched a (Slice ps, None) ->
     AnalyzePayer rt c sched a (Slice ps', None) -> ps ≡ₚ ps').
Proof.
  intros Hok Hc f outgoing incoming. split_and!.
  - intros res (bs & -> & Hr)%AnalyzeBeneficiary_fetched; [|done..].
    exists bs. split; [done|].
    pose proof (beneficiary_values_aggregate rt _ _ _ _ _ Hr) as Hp.
    split; [exact Hp|].
    assert (Beneficiary.Address <$> bs = Engine.address <$> (ofBeneficiary <$> bs)) as ->.
    { rewrite <- list_fmap_compose. reflexivity. }
    rewrite Hp. apply aggregate_NoDup.
  - intros res (ps & -> & Hr)%AnalyzePayer_fetched; [|done..].
    exists ps. split; [done|].
    pose proof (payer_values_aggregate rt _ _ _ _ _ Hr) as Hp.
    split; [exact Hp|].
    assert (Payer.Address <$> ps = Engine.address <$> (ofPayer <$> ps)) as ->.
    { rewrite <- list_fmap_compose. reflexivity. }
    rewrite Hp. apply aggregate_NoDup.
  - destruct (rangeValues_exists (buildBeneficiaryMap rt a (normalRecords f)
                (internalRecords f) (tokenRecords f))) as [bs Hr].
    exists (Slice bs, None). apply AnalyzeBeneficiary_fetched; eauto.
  - destruct (rangeValues_exists (buildPayerMap rt a (normalRecords f)
                (internalRecords f) (tokenRecords f))) as [ps Hr].
    exists (Slice ps, None). apply AnalyzePayer_fetched; eauto.
  - intros bs bs' (x & [= <-] & Hx)%AnalyzeBeneficiary_fetched
      (y & [= <-] & Hy)%AnalyzeBeneficiary_fetched; try done.
    unfold rangeValues in *. by rewrite Hx, Hy.
  - intros ps ps' (x & [= <-] & Hx)%AnalyzePayer_fetched
      (y & [= <-] & Hy)%AnalyzePayer_fetched; try done.
    unfold rangeValues in *. by rewrite Hx, Hy.
Qed.

Lemma C1_aggregates_up_to_order_witness :
  fetchedOk (fetchAll (recordsClient [txToB; txToC] [] [] "0xA") "0xA") /\
  completeSchedule serialRun /\
  exists res, AnalyzeBeneficiary exampleRuntime
                (recordsClient [txToB; txToC] [] [] "0xA") serialRun "0xA" res.
Proof.
  split; [apply recordsClient_ok|]. split; [apply serialRun_complete|].
  exact (proj1 (proj2 (proj2
    (C1_aggregates_up_to_order exampleRuntime
       (recordsClient [txToB; txToC] [] [] "0xA") serialRun "0xA"
       (recordsClient_ok _ _ _ _) serialRun_complete)))).
Defined.

(** The beneficiaries of the two example transactions, the later one first. *)
Lemma reversed_order_possible :
  AnalyzeBeneficiary exampleRuntime (recordsClient [txToB; txToC] [] [] "0xA")
    serialRun "0xA"
    (Slice [ {| Beneficiary.Address := "0xC";
                Beneficiary.Amount := TxAmount (detailOf exampleRuntime txToC);
                Beneficiary.Transactions := [detailOf exampleRuntime txToC] |};
             {| Beneficiary.Address := "0xB";
                Beneficiary.Amount := TxAmount (detailOf exampleRuntime txToB);
                Beneficiary.Transactions := [detailOf exampleRuntime txToB] |} ],
     None).
Proof.
  apply AnalyzeBeneficiary_fetched;
    [apply recordsClient_ok|apply serialRun_complete|].
  eexists; split; [reflexivity|].
  rewrite recordsClient_fetched. unfold rangeValues.
  vm_compute.
  first [reflexivity | apply Permutation_swap].
Qed.

(** C1, counterexample.  With two outgoing transactions, to 0xB and then to
    0xC, a run may return the aggregate of 0xC before that of 0xB, which is
    not the first-insertion order. *)
Lemma C1_first_insertion_order_counterexample :
  ~ (forall rt c sched a res,
       fetchedOk (fetchAll c a) -> completeSchedule sched ->
       AnalyzeBeneficiary rt c sched a res ->
       exists bs, res = (Slice bs, None) /\
         ofBeneficiary <$> bs =
         Engine.aggregate (Engine.entries rt Engine.Outgoing a
           (normalRecords (fetchAll c a)) (internalRecords (fetchAll c a))
           (tokenRecords (fetchAll c a)))).
Proof.
  intros H.
  destruct (H _ _ _ _ _ (recordsClient_ok _ _ _ _) serialRun_complete
              reversed_order_possible) as (bs & [= <-] & Heq).
  rewrite recordsClient_fetched in Heq. vm_compute in Heq. discriminate Heq.
Qed.

(* ===================================================================== *)
(** ** What the aggregates hold *)

Lemma aggregate_snoc es e :
  Engine.aggregate (es ++ [e]) = Engine.upsert (Engine.aggregate es) e.1 e.2.
Proof. unfold Engine.aggregate. by rewrite fold_left_app. Qed.

Lemma aggregate_keys es k :
  k ∈ Engine.address <$> Engine.aggregate es <-> k ∈ es.*1.
Proof.
  induction es as [|e es IH] using rev_ind.
  - done.
  - rewrite aggregate_snoc, upsert_keys, fmap_app, elem_of_app. cbn [fmap list_fmap].
    rewrite list_elem_of_singleton.
    destruct (decide (e.1 ∈ Engine.address <$> Engine.aggregate es)) as [Hin|Hnin].
    + rewrite IH. split; [tauto|]. intros [H| ->]; [done|]. by apply IH.
    + rewrite elem_of_app, list_elem_of_singleton, IH. tauto.
Qed.

Lemma upsert_elem l k d a' :
  NoDup (Engine.address <$> l) ->
  a' ∈ Engine.upsert l k d ->
  (a' ∈ l /\ Engine.address a' <> k) \/
  (exists a, a ∈ l /\ Engine.address a = k /\ a' = Engine.addDetail a d) \/
  ((k ∉ Engine.address <$> l) /\ a' = Engine.newAggregate k d).
Proof.
  induction l as [|a l IH]; intros Hnd Hin.
  - cbn in Hin. apply list_elem_of_singleton in Hin as ->.
    right; right. split; [apply not_elem_of_nil|done].
  - rewrite fmap_cons in Hnd. apply NoDup_cons in Hnd as [Hna Hnd].
    cbn [Engine.upsert] in Hin.
    destruct (String.eqb_spec (Engine.address a) k) as [Heq|Hne].
    + apply elem_of_cons in Hin as [->|Hin].
      * right; left. exists a. split; [left|done].
      * left. split; [by right|]. intros E. apply Hna. rewrite Heq, <- E.
        by apply list_elem_of_fmap_2.
    + apply elem_of_cons in Hin as [->|Hin].
      * left. split; [left|done].
      * destruct (IH Hnd Hin) as [[H1 H2]|[(b & H1 & H2 & H3)|[H1 H2]]].
        -- left. split; [by right|done].
        -- right; left. exists b. split; [by right|done].
        -- right; right. split; [|done]. rewrite fmap_cons.
           intros [E|E]%elem_of_cons; [congruence|contradiction].
Qed.

Lemma filter_none {A} (P : A -> Prop) `{forall x, Decision (P x)} (l : list A) :
  (forall x, x ∈ l -> ~ P x) -> filter P l = [].
Proof.
  induction l as [|x l IH]; intros Hn; [done|].
  rewrite filter_cons_False by (apply Hn; left).
  apply IH. intros y Hy. apply Hn. by right.
Qed.

Lemma runningTotal_snoc ds d :
  ds <> [] -> runningTotal (ds ++ [d]) = f64add (runningTotal ds) (TxAmount d).
Proof.
  destruct ds as [|d0 ds]; [done|]. intros _. cbn [app runningTotal].
  by rewrite fmap_app, fold_left_app.
Qed.

(** Each aggregate lists the details of exactly the entries filed under its
    address, in encounter order, and its total is their running sum. *)
Lemma aggregate_contents es a :
  a ∈ Engine.aggregate es ->
  Engine.transactions a = (filter (fun e => e.1 = Engine.address a) es).*2 /\
  Engine.totalAmount a = runningTotal (Engine.transactions a) /\
  Engine.transactions a <> [].
Proof.
  revert a. induction es as [|[k d] es IH] using rev_ind; intros a' Hin.
  - by apply elem_of_nil in Hin.
  - rewrite aggregate_snoc in Hin. cbn [fst snd] in Hin.
    rewrite filter_app, fmap_app.
    apply upsert_elem in Hin as [[H1 H2]|[(a & H1 & H2 & ->)|[H1 ->]]];
      [| |  |apply aggregate_NoDup].
    + destruct (IH _ H1) as (T & S & N).
      rewrite filter_cons_False by (cbn; congruence).
      rewrite filter_nil. cbn. by rewrite app_nil_r.
    + destruct (IH _ H1) as (T & S & N). cbn [Engine.addDetail Engine.address
        Engine.transactions Engine.totalAmount].
      rewrite filter_cons_True by (cbn; congruence). rewrite filter_nil. cbn.
      split_and!.
      * by rewrite T.
      * rewrite runningTotal_snoc by done. by rewrite S.
      * by destruct (Engine.transactions a).
    + cbn [Engine.newAggregate Engine.address Engine.transactions Engine.totalAmount].
      rewrite filter_cons_True by done. rewrite filter_nil.
      assert (filter (fun e : string * TransactionDetails => e.1 = k) es = []) as ->.
      { apply filter_none. intros e He Hk. apply H1.
        apply aggregate_keys. rewrite <- Hk. by apply list_elem_of_fmap_2. }
      done.
Qed.

Lemma upsert_details l k d :
  concat (Engine.transactions <$> Engine.upsert l k d) ≡ₚ
  concat (Engine.transactions <$> l) ++ [d].
Proof.
  induction l as [|a l IH]; [done|].
  cbn [Engine.upsert]. destruct (String.eqb (Engine.address a) k).
  - rewrite !fmap_cons. cbn [concat Engine.addDetail Engine.transactions].
    rewrite <- !app_assoc. f_equiv. apply Permutation_app_comm.
  - rewrite !fmap_cons. cbn [concat]. rewrite IH. by rewrite app_assoc.
Qed.

(** Over all aggregates, the details are those of the contributing
    records, each once. *)
Lemma aggregate_details es :
  concat (Engine.transactions <$> Engine.aggregate es) ≡ₚ es.*2.
Proof.
  induction es as [|e es IH] using rev_ind; [done|].
  by rewrite aggregate_snoc, upsert_details, IH, fmap_app.
Qed.

(* ===================================================================== *)
(** ** Case-insensitive matching of ASCII addresses *)

Lemma allBytes_complete c : In c allBytes.
Proof.
  rewrite <- (ascii_nat_embedding c). unfold allBytes.
  apply in_map, in_seq. pose proof (nat_ascii_bounded c). lia.
Qed.

Lemma sameLetter_foldsTogether_all :
  forallb (fun c => forallb (fun d => implb (sameLetter c d) (foldsTogether c d))
                      allBytes) allBytes = true.
Proof. vm_compute. reflexivity. Qed.

Lemma sameLetter_foldsTogether c d :
  sameLetter c d = true -> foldsTogether c d = true.
Proof.
  intros H. pose proof sameLetter_foldsTogether_all as A.
  rewrite forallb_forall in A. specialize (A c (allBytes_complete c)).
  rewrite forallb_forall in A. specialize (A d (allBytes_complete d)).
  rewrite H in A. exact A.
Qed.

Section Folding.

Variable rt : GoRuntime.

Lemma EqualFold_step c d s t :
  foldsTogether c d = true ->
  EqualFold rt (String c s) (String d t) = EqualFold rt s t.
Proof.
  unfold foldsTogether. intros H. cbn [EqualFold].
  apply andb_prop in H as [H1 H2]. apply negb_true_iff in H1. rewrite H1.
  destruct (byteVal d =? byteVal c); [done|]. cbn in H2. by rewrite H2.
Qed.

(** Two ASCII strings that differ only in letter case are equal under
    [strings.EqualFold]. *)
Lemma EqualFold_ascii s t :
  asciiOnly s = true -> asciiOnly t = true -> lowerASCII s = lowerASCII t ->
  EqualFold rt s t = true.
Proof.
  revert t. induction s as [|c s IH]; intros [|d t] Hs Ht Hl; try done.
  cbn in Hs, Ht, Hl. apply andb_prop in Hs as [Hc Hs]. apply andb_prop in Ht as [Hd Ht].
  injection Hl as Hcd Hl.
  rewrite EqualFold_step; [by apply IH|].
  apply sameLetter_foldsTogether. unfold sameLetter. rewrite Hc, Hd, Hcd. cbn.
  apply Ascii.eqb_refl.
Qed.

Lemma txEntry_eq dir q tx :
  Engine.txEntry rt dir q tx =
  if EqualFold rt (txEndpoint dir tx) q && String.eqb (Transaction.IsError tx) "0"
  then Some (txKey dir tx, detailOf rt tx) else None.
Proof. by destruct dir. Qed.

Lemma tokenEntry_eq dir q tr :
  Engine.tokenEntry rt dir q tr =
  if EqualFold rt (tokenEndpoint dir tr) q
  then Some (tokenKey dir tr, tokenDetailOf rt tr) else None.
Proof. by destruct dir. Qed.

(** The contributing records: every entry stems from a record passing the
    filters, and every record passing them gives an entry. *)
Lemma entries_elem dir q ns ins ts e :
  e ∈ Engine.entries rt dir q ns ins ts <->
  (exists tx, (tx ∈ ns \/ tx ∈ ins) /\ EqualFold rt (txEndpoint dir tx) q = true /\
              Transaction.IsError tx = "0"%string /\ e = (txKey dir tx, detailOf rt tx)) \/
  (exists tr, tr ∈ ts /\ EqualFold rt (tokenEndpoint dir tr) q = true /\
              e = (tokenKey dir tr, tokenDetailOf rt tr)).
Proof.
  unfold Engine.entries. rewrite !elem_of_app, !list_elem_of_omap. split.
  - intros [(tx & Hin & He)|[(tx & Hin & He)|(tr & Hin & He)]].
    + left. exists tx. rewrite txEntry_eq in He.
      destruct (EqualFold rt (txEndpoint dir tx) q) eqn:E1; [|done].
      destruct (String.eqb_spec (Transaction.IsError tx) "0") as [E2|]; [|done].
      cbn in He. injection He as <-. eauto.
    + left. exists tx. rewrite txEntry_eq in He.
      destruct (EqualFold rt (txEndpoint dir tx) q) eqn:E1; [|done].
      destruct (String.eqb_spec (Transaction.IsError tx) "0") as [E2|]; [|done].
      cbn in He. injection He as <-. eauto.
    + right. exists tr. rewrite tokenEntry_eq in He.
      destruct (EqualFold rt (tokenEndpoint dir tr) q) eqn:E1; [|done].
      injection He as <-. eauto.
  - intros [(tx & [Hin|Hin] & E1 & E2 & ->)|(tr & Hin & E1 & ->)].
    + left. exists tx. split; [done|]. rewrite txEntry_eq, E1, E2. done.
    + right; left. exists tx. split; [done|]. rewrite txEntry_eq, E1, E2. done.
    + right; right. exists tr. split; [done|]. by rewrite tokenEntry_eq, E1.
Qed.

(** An entry is found among the details of the aggregate of its key. *)
Lemma entry_in_aggregate es e :
  e ∈ es ->
  exists a, a ∈ Engine.aggregate es /\ Engine.address a = e.1 /\
            e.2 ∈ Engine.transactions a.
Proof.
  intros Hin.
  assert (e.1 ∈ Engine.address <$> Engine.aggregate es) as Hk.
  { apply aggregate_keys. by apply list_elem_of_fmap_2. }
  apply list_elem_of_fmap in Hk as (a & Ha & Hain).
  exists a. split; [done|]. split; [done|].
  destruct (aggregate_contents _ _ Hain) as (T & _ & _). rewrite T.
  apply list_elem_of_fmap_2. apply list_elem_of_filter. split; [by symmetry|done].
Qed.

(** The key of an aggregate is the key of one of the entries. *)
Lemma aggregate_has_entry es a :
  a ∈ Engine.aggregate es -> exists e, e ∈ es /\ e.1 = Engine.address a.
Proof.
  intros Hin.
  assert (Engine.address a ∈ es.*1) as Hk.
  { apply aggregate_keys. by apply list_elem_of_fmap_2. }
  apply list_elem_of_fmap in Hk as (e & He & Hein). eauto.
Qed.

End Folding.

(* ===================================================================== *)
(** ** Direction, error exclusion and totals of an analysis *)

Section Results.

Variable rt : GoRuntime.

Lemma beneficiary_in_aggregate a ns ins ts bs b :
  rangeValues (buildBeneficiaryMap rt a ns ins ts) bs -> b ∈ bs ->
  ofBeneficiary b ∈ Engine.aggregate (Engine.entries rt Engine.Outgoing a ns ins ts).
Proof.
  intros Hr Hb. rewrite <- (beneficiary_values_aggregate rt _ _ _ _ _ Hr).
  by apply list_elem_of_fmap_2.
Qed.

Lemma aggregate_in_beneficiaries a ns ins ts bs x :
  rangeValues (buildBeneficiaryMap rt a ns ins ts) bs ->
  x ∈ Engine.aggregate (Engine.entries rt Engine.Outgoing a ns ins ts) ->
  exists b, b ∈ bs /\ ofBeneficiary b = x.
Proof.
  intros Hr Hx. rewrite <- (beneficiary_values_aggregate rt _ _ _ _ _ Hr) in Hx.
  apply list_elem_of_fmap in Hx as (b & -> & Hb). eauto.
Qed.

Lemma payer_in_aggregate a ns ins ts ps p :
  rangeValues (buildPayerMap rt a ns ins ts) ps -> p ∈ ps ->
  ofPayer p ∈ Engine.aggregate (Engine.entries rt Engine.Incoming a ns ins ts).
Proof.
  intros Hr Hp. rewrite <- (payer_values_aggregate rt _ _ _ _ _ Hr).
  by apply list_elem_of_fmap_2.
Qed.

Lemma aggregate_in_payers a ns ins ts ps x :
  rangeValues (buildPayerMap rt a ns ins ts) ps ->
  x ∈ Engine.aggregate (Engine.entries rt Engine.Incoming a ns ins ts) ->
  exists p, p ∈ ps /\ ofPayer p = x.
Proof.
  intros Hr Hx. rewrite <- (payer_values_aggregate rt _ _ _ _ _ Hr) in Hx.
  apply list_elem_of_fmap in Hx as (p & -> & Hp). eauto.
Qed.

(** Every aggregate of the engine is keyed by a record that passes the
    direction filter and, for a transaction, the error exclusion. *)
Lemma aggregate_origin dir q ns ins ts x :
  x ∈ Engine.aggregate (Engine.entries rt dir q ns ins ts) ->
  (exists tx, (tx ∈ ns \/ tx ∈ ins) /\ EqualFold rt (txEndpoint dir tx) q = true /\
              Transaction.IsError tx = "0"%string /\ txKey dir tx = Engine.address x) \/
  (exists tr, tr ∈ ts /\ EqualFold rt (tokenEndpoint dir tr) q = true /\
              tokenKey dir tr = Engine.address x).
Proof.
  intros (e & He & Hk)%aggregate_has_entry.
  apply entries_elem in He as [(tx & Hin & E1 & E2 & ->)|(tr & Hin & E1 & ->)].
  - left. exists tx. eauto.
  - right. exists tr. eauto.
Qed.

Lemma tx_contributes dir q ns ins ts tx :
  (tx ∈ ns \/ tx ∈ ins) -> EqualFold rt (txEndpoint dir tx) q = true ->
  Transaction.IsError tx = "0"%string ->
  exists x, x ∈ Engine.aggregate (Engine.entries rt dir q ns ins ts) /\
            Engine.address x = txKey dir tx /\ detailOf rt tx ∈ Engine.transactions x.
Proof.
  intros Hin E1 E2.
  apply (entry_in_aggregate _ (txKey dir tx, detailOf rt tx)).
  apply entries_elem. left. exists tx. eauto.
Qed.

Lemma token_contributes dir q ns ins ts tr :
  tr ∈ ts -> EqualFold rt (tokenEndpoint dir tr) q = true ->
  exists x, x ∈ Engine.aggregate (Engine.entries rt dir q ns ins ts) /\
            Engine.address x = tokenKey dir tr /\
            tokenDetailOf rt tr ∈ Engine.transactions x.
Proof.
  intros Hin E1.
  apply (entry_in_aggregate _ (tokenKey dir tr, tokenDetailOf rt tr)).
  apply entries_elem. right. exists tr. eauto.
Qed.

(** C3.  A beneficiary is returned only for the [To] of a record whose
    [From] equals the queried address under [EqualFold] (and, for a
    transaction, that did not fail); a payer only for the [From] of a record
    whose [To] does.  A record whose endpoint is an ASCII string differing
    from the ASCII queried address only in letter case does match: its
    counterparty is among the returned aggregates. *)
Theorem C3_directionality c sched a :
  fetchedOk (fetchAll c a) -> completeSchedule sched ->
  let f := fetchAll c a in
  (forall bs b, AnalyzeBeneficiary rt c sched a (Slice bs, None) -> b ∈ bs ->
     (exists tx, (tx ∈ normalRecords f \/ tx ∈ internalRecords f) /\
        EqualFold rt (Transaction.From tx) a = true /\
        Transaction.IsError tx = "0"%string /\ Transaction.To tx = Beneficiary.Address b) \/
     (exists tr, tr ∈ tokenRecords f /\ EqualFold rt (TokenTransfer.From tr) a = true /\
        TokenTransfer.To tr = Beneficiary.Address b)) /\
  (forall ps p, AnalyzePayer rt c sched a (Slice ps, None) -> p ∈ ps ->
     (exists tx, (tx ∈ normalRecords f \/ tx ∈ internalRecords f) /\
        EqualFold rt (Transaction.To tx) a = true /\
        Transaction.IsError tx = "0"%string /\ Transaction.From tx = Payer.Address p) \/
     (exists tr, tr ∈ tokenRecords f /\ EqualFold rt (TokenTransfer.To tr) a = true /\
        TokenTransfer.From tr = Payer.Address p)) /\
  (forall bs tx, AnalyzeBeneficiary rt c sched a (Slice bs, None) ->
     (tx ∈ normalRecords f \/ tx ∈ internalRecords f) ->
     asciiOnly (Transaction.From tx) = true -> asciiOnly a = true ->
     lowerASCII (Transaction.From tx) = lowerASCII a ->
     Transaction.IsError tx = "0"%string ->
     exists b, b ∈ bs /\ Beneficiary.Address b = Transaction.To tx) /\
  (forall bs tr, AnalyzeBeneficiary rt c sched a (Slice bs, None) ->
     tr ∈ tokenRecords f ->
     asciiOnly (TokenTransfer.From tr) = true -> asciiOnly a = true ->
     lowerASCII (TokenTransfer.From tr) = lowerASCII a ->
     exists b, b ∈ bs /\ Beneficiary.Address b = TokenTransfer.To tr) /\
  (forall ps tx, AnalyzePayer rt c sched a (Slice ps, None) ->
     (tx ∈ normalRecords f \/ tx ∈ internalRecords f) ->
     asciiOnly (Transaction.To tx) = true -> asciiOnly a = true ->
     lowerASCII (Transaction.To tx) = lowerASCII a ->
     Transaction.IsError tx = "0"%string ->
     exists p, p ∈ ps /\ Payer.Address p = Transaction.From tx) /\
  (forall ps tr, AnalyzePayer rt c sched a (Slice ps, None) ->
     tr ∈ tokenRecords f ->
     asciiOnly (TokenTransfer.To tr) = true -> asciiOnly a = true ->
     lowerASCII (TokenTransfer.To tr) = lowerASCII a ->
     exists p, p ∈ ps /\ Payer.Address p = TokenTransfer.From tr).
Proof.
  intros Hok Hc f. split_and!.
  - intros bs b (x & [= <-] & Hr)%AnalyzeBeneficiary_fetched Hb; try done.
    exact (aggregate_origin Engine.Outgoing a _ _ _ _ (beneficiary_in_aggregate _ _ _ _ _ _ Hr Hb)).
  - intros ps p (x & [= <-] & Hr)%AnalyzePayer_fetched Hp; try done.
    exact (aggregate_origin Engine.Incoming a _ _ _ _ (payer_in_aggregate _ _ _ _ _ _ Hr Hp)).
  - intros bs tx (x & [= <-] & Hr)%AnalyzeBeneficiary_fetched Hin A1 A2 L E; try done.
    destruct (tx_contributes Engine.Outgoing a _ _ (tokenRecords f) tx Hin
                (EqualFold_ascii rt _ _ A1 A2 L) E) as (y & Hy & Ky & _).
    destruct (aggregate_in_beneficiaries _ _ _ _ _ _ Hr Hy) as (b & Hb & <-). eauto.
  - intros bs tr (x & [= <-] & Hr)%AnalyzeBeneficiary_fetched Hin A1 A2 L; try done.
    destruct (token_contributes Engine.Outgoing a (normalRecords f) (internalRecords f)
                _ tr Hin (EqualFold_ascii rt _ _ A1 A2 L)) as (y & Hy & Ky & _).
    destruct (aggregate_in_beneficiaries _ _ _ _ _ _ Hr Hy) as (b & Hb & <-). eauto.
  - intros ps tx (x & [= <-] & Hr)%AnalyzePayer_fetched Hin A1 A2 L E; try done.
    destruct (tx_contributes Engine.Incoming a _ _ (tokenRecords f) tx Hin
                (EqualFold_ascii rt _ _ A1 A2 L) E) as (y & Hy & Ky & _).
    destruct (aggregate_in_payers _ _ _ _ _ _ Hr Hy) as (p & Hp & <-). eauto.
  - intros ps tr (x & [= <-] & Hr)%AnalyzePayer_fetched Hin A1 A2 L; try done.
    destruct (token_contributes Engine.Incoming a (normalRecords f) (internalRecords f)
                _ tr Hin (EqualFold_ascii rt _ _ A1 A2 L)) as (y & Hy & Ky & _).
    destruct (aggregate_in_payers _ _ _ _ _ _ Hr Hy) as (p & Hp & <-). eauto.
Qed.

End Results.

Lemma C3_directionality_witness :
  fetchedOk (fetchAll (recordsClient [upperCaseTx] [] [] "0xabc") "0xabc") /\
  completeSchedule serialRun /\
  forall bs,
    AnalyzeBeneficiary exampleRuntime (recordsClient [upperCaseTx] [] [] "0xabc")
      serialRun "0xabc" (Slice bs, None) ->
    exists b, b ∈ bs /\ Beneficiary.Address b = "0xB"%string.
Proof.
  split; [apply recordsClient_ok|]. split; [apply serialRun_complete|].
  intros bs Hbs.
  apply (proj1 (proj2 (proj2
    (C3_directionality exampleRuntime (recordsClient [upperCaseTx] [] [] "0xabc")
       serialRun "0xabc" (recordsClient_ok _ _ _ _) serialRun_complete)))
    bs upperCaseTx Hbs).
  - left. rewrite recordsClient_fetched. cbn. apply list_elem_of_here.
  - reflexivity.
  - reflexivity.
  - reflexivity.
  - reflexivity.
Defined.

(* ===================================================================== *)
(** ** Failed transactions leave the maps as they are *)

Section ErrorExclusion.

Variable rt : GoRuntime.

Lemma beneficiaryTxStep_failed a m tx :
  ~ succeeded tx -> beneficiaryTxStep rt a m tx = m.
Proof.
  unfold succeeded, beneficiaryTxStep. intros H.
  destruct (String.eqb_spec (Transaction.IsError tx) "0"); [done|].
  by rewrite andb_false_r.
Qed.

Lemma payerTxStep_failed a m tx :
  ~ succeeded tx -> payerTxStep rt a m tx = m.
Proof.
  unfold succeeded, payerTxStep. intros H.
  destruct (String.eqb_spec (Transaction.IsError tx) "0"); [done|].
  by rewrite andb_false_r.
Qed.

Lemma beneficiaryTx_loop_succeeded a l m :
  fold_left (beneficiaryTxStep rt a) l m =
  fold_left (beneficiaryTxStep rt a) (filter succeeded l) m.
Proof.
  revert m. induction l as [|tx l IH]; intros m; [done|].
  rewrite filter_cons. cbn [fold_left]. destruct (decide (succeeded tx)) as [Hs|Hs].
  - cbn [fold_left]. apply IH.
  - rewrite beneficiaryTxStep_failed by done. apply IH.
Qed.

Lemma payerTx_loop_succeeded a l m :
  fold_left (payerTxStep rt a) l m =
  fold_left (payerTxStep rt a) (filter succeeded l) m.
Proof.
  revert m. induction l as [|tx l IH]; intros m; [done|].
  rewrite filter_cons. cbn [fold_left]. destruct (decide (succeeded tx)) as [Hs|Hs].
  - cbn [fold_left]. apply IH.
  - rewrite payerTxStep_failed by done. apply IH.
Qed.

Lemma buildBeneficiaryMap_succeeded a ns ins ts :
  buildBeneficiaryMap rt a ns ins ts =
  buildBeneficiaryMap rt a (filter succeeded ns) (filter succeeded ins) ts.
Proof.
  unfold buildBeneficiaryMap. cbn zeta.
  by rewrite (beneficiaryTx_loop_succeeded a ns), (beneficiaryTx_loop_succeeded a ins).
Qed.

Lemma buildPayerMap_succeeded a ns ins ts :
  buildPayerMap rt a ns ins ts =
  buildPayerMap rt a (filter succeeded ns) (filter succeeded ins) ts.
Proof.
  unfold buildPayerMap. cbn zeta.
  by rewrite (payerTx_loop_succeeded a ns), (payerTx_loop_succeeded a ins).
Qed.

(** C4.  After three successful fetches the returned lists are exactly those
    obtained from the fetched records with every normal and internal
    transaction whose [IsError] is not ["0"] removed, whatever its direction:
    such a record contributes to no aggregate.  Every token transfer that
    passes the direction filter contributes: the aggregate of its
    counterparty is returned and holds the transfer's detail. *)
Theorem C4_error_exclusion c sched a :
  fetchedOk (fetchAll c a) -> completeSchedule sched ->
  let f := fetchAll c a in
  (forall bs, AnalyzeBeneficiary rt c sched a (Slice bs, None) <->
     rangeValues (buildBeneficiaryMap rt a (filter succeeded (normalRecords f))
                    (filter succeeded (internalRecords f)) (tokenRecords f)) bs) /\
  (forall ps, AnalyzePayer rt c sched a (Slice ps, None) <->
     rangeValues (buildPayerMap rt a (filter succeeded (normalRecords f))
                    (filter succeeded (internalRecords f)) (tokenRecords f)) ps) /\
  (forall bs tr, AnalyzeBeneficiary rt c sched a (Slice bs, None) ->
     tr ∈ tokenRecords f -> EqualFold rt (TokenTransfer.From tr) a = true ->
     exists b, b ∈ bs /\ Beneficiary.Address b = TokenTransfer.To tr /\
               tokenDetailOf rt tr ∈ Beneficiary.Transactions b) /\
  (forall ps tr, AnalyzePayer rt c sched a (Slice ps, None) ->
     tr ∈ tokenRecords f -> EqualFold rt (TokenTransfer.To tr) a = true ->
     exists p, p ∈ ps /\ Payer.Address p = TokenTransfer.From tr /\
               tokenDetailOf rt tr ∈ Payer.Transactions p).
Proof.
  intros Hok Hc f. split_and!.
  - intros bs. rewrite (AnalyzeBeneficiary_fetched rt c sched a _ Hok Hc).
    rewrite <- buildBeneficiaryMap_succeeded. split.
    + by intros (x & [= <-] & Hr).
    + intros Hr. by exists bs.
  - intros ps. rewrite (AnalyzePayer_fetched rt c sched a _ Hok Hc).
    rewrite <- buildPayerMap_succeeded. split.
    + by intros (x & [= <-] & Hr).
    + intros Hr. by exists ps.
  - intros bs tr (x & [= <-] & Hr)%AnalyzeBeneficiary_fetched Hin E; try done.
    destruct (token_contributes rt Engine.Outgoing a (normalRecords f) (internalRecords f)
                _ tr Hin E) as (y & Hy & Ky & Dy).
    destruct (aggregate_in_beneficiaries _ _ _ _ _ _ _ Hr Hy) as (b & Hb & <-). eauto.
  - intros ps tr (x & [= <-] & Hr)%AnalyzePayer_fetched Hin E; try done.
    destruct (token_contributes rt Engine.Incoming a (normalRecords f) (internalRecords f)
                _ tr Hin E) as (y & Hy & Ky & Dy).
    destruct (aggregate_in_payers _ _ _ _ _ _ _ Hr Hy) as (p & Hp & <-). eauto.
Qed.

End ErrorExclusion.

Lemma C4_error_exclusion_witness :
  fetchedOk (fetchAll (recordsClient [failedTx] [] [transferToE] "0xA") "0xA") /\
  completeSchedule serialRun /\
  forall bs,
    AnalyzeBeneficiary exampleRuntime (recordsClient [failedTx] [] [transferToE] "0xA")
      serialRun "0xA" (Slice bs, None) ->
    exists b, b ∈ bs /\ Beneficiary.Address b = "0xE"%string /\
              tokenDetailOf exampleRuntime transferToE ∈ Beneficiary.Transactions b.
Proof.
  split; [apply recordsClient_ok|]. split; [apply serialRun_complete|].
  intros bs Hbs.
  apply (proj1 (proj2 (proj2
    (C4_error_exclusion exampleRuntime (recordsClient [failedTx] [] [transferToE] "0xA")
       serialRun "0xA" (recordsClient_ok _ _ _ _) serialRun_complete)))
    bs transferToE Hbs).
  - rewrite recordsClient_fetched. cbn. apply list_elem_of_here.
  - reflexivity.
Defined.

(* ===================================================================== *)
(** ** Totals *)

Section Totals.

Variable rt : GoRuntime.

Lemma beneficiary_details a ns ins ts bs :
  rangeValues (buildBeneficiaryMap rt a ns ins ts) bs ->
  concat (Beneficiary.Transactions <$> bs) ≡ₚ
  (Engine.entries rt Engine.Outgoing a ns ins ts).*2.
Proof.
  intros Hr. rewrite <- aggregate_details.
  rewrite <- (beneficiary_values_aggregate rt _ _ _ _ _ Hr).
  by rewrite <- list_fmap_compose.
Qed.

Lemma payer_details a ns ins ts ps :
  rangeValues (buildPayerMap rt a ns ins ts) ps ->
  concat (Payer.Transactions <$> ps) ≡ₚ
  (Engine.entries rt Engine.Incoming a ns ins ts).*2.
Proof.
  intros Hr. rewrite <- aggregate_details.
  rewrite <- (payer_values_aggregate rt _ _ _ _ _ Hr).
  by rewrite <- list_fmap_compose.
Qed.

(** C5 (as amended).  In every returned list each aggregate holds, in
    encounter order, the details of the contributing records keyed by its
    counterparty, at least one, and its amount is the float64 sum of their
    amounts accumulated in that order; the details of all aggregates taken
    together are, up to order, the details of the records that pass the
    direction filter and the error exclusion. *)
Theorem C5_totals c sched a :
  fetchedOk (fetchAll c a) -> completeSchedule sched ->
  let f := fetchAll c a in
  (forall bs, AnalyzeBeneficiary rt c sched a (Slice bs, None) ->
     let es := Engine.entries rt Engine.Outgoing a (normalRecords f) (internalRecords f)
                 (tokenRecords f) in
     (forall b, b ∈ bs ->
        Beneficiary.Transactions b = (filter (fun e => e.1 = Beneficiary.Address b) es).*2 /\
        Beneficiary.Amount b = runningTotal (Beneficiary.Transactions b) /\
        Beneficiary.Transactions b <> []) /\
     concat (Beneficiary.Transactions <$> bs) ≡ₚ es.*2) /\
  (forall ps, AnalyzePayer rt c sched a (Slice ps, None) ->
     let es := Engine.entries rt Engine.Incoming a (normalRecords f) (internalRecords f)
                 (tokenRecords f) in
     (forall p, p ∈ ps ->
        Payer.Transactions p = (filter (fun e => e.1 = Payer.Address p) es).*2 /\
        Payer.Amount p = runningTotal (Payer.Transactions p) /\
        Payer.Transactions p <> []) /\
     concat (Payer.Transactions <$> ps) ≡ₚ es.*2).
Proof.
  intros Hok Hc f. split.
  - intros bs (x & [= <-] & Hr)%AnalyzeBeneficiary_fetched es; try done. split.
    + intros b Hb.
      exact (aggregate_contents _ _ (beneficiary_in_aggregate rt _ _ _ _ _ _ Hr Hb)).
    + by apply beneficiary_details.
  - intros ps (x & [= <-] & Hr)%AnalyzePayer_fetched es; try done. split.
    + intros p Hp.
      exact (aggregate_contents _ _ (payer_in_aggregate rt _ _ _ _ _ _ Hr Hp)).
    + by apply payer_details.
Qed.

End Totals.

Lemma C5_totals_witness :
  fetchedOk (fetchAll (recordsClient [smallToB1; largeToC; smallToB2] [] [] "0xA") "0xA") /\
  completeSchedule serialRun /\
  forall bs,
    AnalyzeBeneficiary exampleRuntime
      (recordsClient [smallToB1; largeToC; smallToB2] [] [] "0xA") serialRun "0xA"
      (Slice bs, None) ->
    forall b, b ∈ bs ->
      Beneficiary.Amount b = runningTotal (Beneficiary.Transactions b).
Proof.
  split; [apply recordsClient_ok|]. split; [apply serialRun_complete|].
  intros bs Hbs b Hb.
  exact (proj1 (proj2 (proj1 (proj1
    (C5_totals exampleRuntime (recordsClient [smallToB1; largeToC; smallToB2] [] [] "0xA")
       serialRun "0xA" (recordsClient_ok _ _ _ _) serialRun_complete) bs Hbs) b Hb))).
Defined.

(** C5 as stated fails: float64 addition is not associative, so the sum of
    the aggregates' amounts can differ from the sum over the contributing
    records.  Two transfers of 100 wei around one of 1 ether: the records sum
    to 1, the two aggregates to the next float64 above 1. *)
Lemma C5_sum_of_totals_counterexample :
  ~ (forall rt c sched a bs,
       fetchedOk (fetchAll c a) -> completeSchedule sched ->
       AnalyzeBeneficiary rt c sched a (Slice bs, None) ->
       sumFloat (Beneficiary.Amount <$> bs) =
       sumFloat (TxAmount <$>
                   (Engine.entries rt Engine.Outgoing a (normalRecords (fetchAll c a))
                      (internalRecords (fetchAll c a)) (tokenRecords (fetchAll c a))).*2)).
Proof.
  intros H.
  pose (c := recordsClient [smallToB1; largeToC; smallToB2] [] [] "0xA").
  pose (m := buildBeneficiaryMap exampleRuntime "0xA"
               (normalRecords (fetchAll c "0xA")) (internalRecords (fetchAll c "0xA"))
               (tokenRecords (fetchAll c "0xA"))).
  specialize (H exampleRuntime c serialRun "0xA"%string (map_to_list m).*2
                (recordsClient_ok _ _ _ _) serialRun_complete).
  assert (Hrun : AnalyzeBeneficiary exampleRuntime c serialRun "0xA"
                   (Slice (map_to_list m).*2, None)).
  { apply AnalyzeBeneficiary_fetched;
      [apply recordsClient_ok|apply serialRun_complete|].
    eexists; split; [reflexivity|]. unfold rangeValues. reflexivity. }
  specialize (H Hrun). subst m c. rewrite recordsClient_fetched in H.
  vm_compute in H. discriminate H.
Qed.

(* ===================================================================== *)
(** ** Transport failures *)

(** The trace and the outcome of the request loop: three failures. *)
Lemma retryLoop_exhausted {A} (get : nat -> getOutcome A) e0 e1 e2 :
  get 0%nat = inl e0 -> get 1%nat = inl e1 -> get 2%nat = inl e2 ->
  retryLoop get (maxRetries - 1) 0 = ([Get; Sleep 1; Get; Sleep 4; Get], inl e2).
Proof. intros H0 H1 H2. cbn. rewrite H0. cbn. rewrite H1. cbn. rewrite H2. reflexivity. Qed.

(** C2, token transfers.  [GetTokenTransfers] issues one request: when it
    fails at the transport, the failure is returned at once, wrapped, with no
    delay and no second attempt, whatever later requests would be answered. *)
Theorem C2_token_transfers_not_retried (c : Client) (a : string) (e : error) :
  getTokenTransfers (httpClient c) (endpointFor "tokentx" a (apiKey c)) 0%nat = inl e ->
  GetTokenTransfers c a =
  ([Get], (nilSlice, Some (wrapError "error fetching token transfers" e))).
Proof. intros H. unfold GetTokenTransfers. by rewrite H. Qed.

Lemma C2_token_transfers_not_retried_witness :
  getTokenTransfers (httpClient (flakyClient [] [])) (endpointFor "tokentx" "0xA" "KEY") 0%nat
    = inl "connection reset"%string /\
  getTokenTransfers (httpClient (flakyClient [] [])) (endpointFor "tokentx" "0xA" "KEY") 1%nat
    = inr (Body (okBody [])) /\
  GetTokenTransfers (flakyClient [] []) "0xA" =
  ([Get], (nilSlice, Some "error fetching token transfers: connection reset"%string)) /\
  GetNormalTransactions (flakyClient [] []) "0xA" = ([Get; Sleep 1; Get], (Slice [], None)).
Proof.
  split; [reflexivity|]. split; [reflexivity|]. split; [|reflexivity].
  exact (C2_token_transfers_not_retried (flakyClient [] []) "0xA" "connection reset"
           eq_refl).
Defined.

(* ===================================================================== *)
(** ** A failed fetch hidden by a later assignment of the shared error *)

Lemma racySchedule_complete : completeSchedule racySchedule.
Proof.
  unfold completeSchedule, racySchedule.
  apply perm_skip, perm_swap.
Qed.

Lemma racy_run f :
  snd (fetchedInternal f) = None -> snd (fetchedToken f) = None ->
  let st := runSchedule f racySchedule in
  groupErr st = None /\ normalTxs st = fst (fetchedNormal f) /\
  internalTxs st = fst (fetchedInternal f) /\ tokenTransfers st = fst (fetchedToken f).
Proof.
  intros Hi Ht. unfold runSchedule, racySchedule. cbn.
  unfold taskReturn. cbn. rewrite Hi. cbn. rewrite Ht. done.
Qed.

(** C6.  With the schedule [racySchedule] the analysis of a client whose
    normal-transaction fetch fails, and whose two other fetches succeed,
    returns a nil error and the aggregates built from the internal
    transactions and the token transfers alone: the failure is lost and a
    partial list is returned.  The same holds for [AnalyzePayer]. *)
Theorem C6_partial_result rt c a e bs ps :
  let f := fetchAll c a in
  fetchedNormal f = (nilSlice, Some e) ->
  snd (fetchedInternal f) = None -> snd (fetchedToken f) = None ->
  rangeValues (buildBeneficiaryMap rt a [] (internalRecords f) (tokenRecords f)) bs ->
  rangeValues (buildPayerMap rt a [] (internalRecords f) (tokenRecords f)) ps ->
  completeSchedule racySchedule /\
  AnalyzeBeneficiary rt c racySchedule a (Slice bs, None) /\
  AnalyzePayer rt c racySchedule a (Slice ps, None).
Proof.
  intros f Hn Hi Ht Hb Hp.
  destruct (racy_run f Hi Ht) as (Hg & Sn & Si & St).
  rewrite Hn in Sn. cbn [fst] in Sn.
  split; [apply racySchedule_complete|]. split.
  - apply AnalyzeBeneficiary_ok; [exact Hg|].
    fold f. rewrite Sn, Si, St. exact Hb.
  - apply AnalyzePayer_ok; [exact Hg|].
    fold f. rewrite Sn, Si, St. exact Hp.
Qed.

Lemma C6_partial_result_witness :
  fetchedNormal (fetchAll (normalDownClient [txToB] [] "0xA") "0xA") =
    (nilSlice,
     Some "error fetching transactions after 3 retries: connection refused"%string) /\
  AnalyzeBeneficiary exampleRuntime (normalDownClient [txToB] [] "0xA") racySchedule "0xA"
    (Slice [ {| Beneficiary.Address := "0xB";
                Beneficiary.Amount := TxAmount (detailOf exampleRuntime txToB);
                Beneficiary.Transactions := [detailOf exampleRuntime txToB] |} ],
     None).
Proof.
  split; [reflexivity|].
  refine (proj1 (proj2
    (C6_partial_result exampleRuntime (normalDownClient [txToB] [] "0xA") "0xA"
       "error fetching transactions after 3 retries: connection refused" _ []
       eq_refl eq_refl eq_refl _ _))).
  - unfold rangeValues. vm_compute. reflexivity.
  - unfold rangeValues. vm_compute. reflexivity.
Defined.

(* ===================================================================== *)
(** ** The provider's no-records response *)

Lemma retryLoop_first_answer {A} (get : nat -> getOutcome A) resp :
  get 0%nat = inr resp -> retryLoop get (maxRetries - 1) 0 = ([Get], inr resp).
Proof. intros H. cbn. by rewrite H. Qed.

Lemma fetchTransactions_noRecords get b :
  snd (retryLoop get (maxRetries - 1) 0) = inr (Body b) -> noRecords b ->
  snd (fetchTransactions get) = (Slice [], None).
Proof.
  intros H (r & Hb). unfold fetchTransactions.
  destruct (retryLoop get (maxRetries - 1) 0) as [trace out].
  cbn [snd] in *. subst out. by rewrite Hb.
Qed.

Lemma GetTokenTransfers_noRecords c a b :
  getTokenTransfers (httpClient c) (endpointFor "tokentx" a (apiKey c)) 0%nat = inr (Body b) ->
  noRecords b -> GetTokenTransfers c a = ([Get], (Slice [], None)).
Proof. intros H (r & Hb). unfold GetTokenTransfers. by rewrite H, Hb. Qed.

(** C7.  A response with status ["0"] and message ["No transactions found"]
    makes [fetchTransactions] (whichever of its three requests is answered)
    and [GetTokenTransfers] return an empty, non-nil list and a nil error.
    When the normal-transaction fetch is answered so and the two other
    fetches succeed, both analyses return a nil error and the aggregates of
    the internal transactions and the token transfers. *)
Theorem C7_no_records rt c sched a :
  let f := fetchAll c a in
  (forall get b, snd (retryLoop get (maxRetries - 1) 0) = inr (Body b) -> noRecords b ->
     snd (fetchTransactions get) = (Slice [], None)) /\
  (forall b, getTokenTransfers (httpClient c) (endpointFor "tokentx" a (apiKey c)) 0%nat
               = inr (Body b) ->
     noRecords b -> snd (GetTokenTransfers c a) = (Slice [], None)) /\
  (forall b, getTransactions (httpClient c) (endpointFor "txlist" a (apiKey c)) 0%nat
               = inr (Body b) ->
     noRecords b -> snd (fetchedInternal f) = None -> snd (fetchedToken f) = None ->
     completeSchedule sched ->
     (forall res, AnalyzeBeneficiary rt c sched a res <->
        exists bs, res = (Slice bs, None) /\
          rangeValues (buildBeneficiaryMap rt a [] (internalRecords f) (tokenRecords f)) bs) /\
     (forall res, AnalyzePayer rt c sched a res <->
        exists ps, res = (Slice ps, None) /\
          rangeValues (buildPayerMap rt a [] (internalRecords f) (tokenRecords f)) ps)).
Proof.
  intros f. split_and!.
  - apply fetchTransactions_noRecords.
  - intros b H Hb. by rewrite (GetTokenTransfers_noRecords c a b H Hb).
  - intros b H Hb Hi Ht Hc.
    assert (Hn : fetchedNormal f = (Slice [], None)).
    { unfold f, fetchAll, GetNormalTransactions. cbn [fetchedNormal].
      apply (fetchTransactions_noRecords _ b); [|done].
      by rewrite (retryLoop_first_answer _ _ H). }
    assert (Hok : fetchedOk f) by (unfold fetchedOk; by rewrite Hn).
    assert (Hrec : normalRecords f = []) by (unfold normalRecords; by rewrite Hn).
    split; intros res.
    + rewrite (AnalyzeBeneficiary_fetched rt c sched a res Hok Hc). fold f.
      by rewrite Hrec.
    + rewrite (AnalyzePayer_fetched rt c sched a res Hok Hc). fold f.
      by rewrite Hrec.
Qed.

Lemma C7_no_records_witness :
  noRecords (@emptyBody Transaction.t) /\
  GetNormalTransactions (onlyInternalClient [txToB] "0xA") "0xA" = ([Get], (Slice [], None)) /\
  completeSchedule serialRun /\
  forall res,
    AnalyzeBeneficiary exampleRuntime (onlyInternalClient [txToB] "0xA") serialRun "0xA" res <->
    exists bs, res = (Slice bs, None) /\
      rangeValues (buildBeneficiaryMap exampleRuntime "0xA" [] [txToB] []) bs.
Proof.
  assert (Hb : noRecords (@emptyBody Transaction.t)) by (eexists; reflexivity).
  split; [exact Hb|]. split; [reflexivity|]. split; [apply serialRun_complete|].
  exact (proj1 (proj2 (proj2
    (C7_no_records exampleRuntime (onlyInternalClient [txToB] "0xA") serialRun "0xA"))
    emptyBody eq_refl Hb eq_refl eq_refl serialRun_complete)).
Defined.

(* ===================================================================== *)
(** ** Amounts *)

Section Amounts.

Variable rt : GoRuntime.




End Amounts.



(* ===================================================================== *)
(** ** Timestamps *)











Section Timestamps.

Variable rt : GoRuntime.


End Timestamps.






(* ===================================================================== *)
(** ** Empty results *)

Section EmptyResults.

Variable rt : GoRuntime.

Lemma no_entries_no_beneficiaries a ns ins ts bs :
  Engine.entries rt Engine.Outgoing a ns ins ts = [] ->
  rangeValues (buildBeneficiaryMap rt a ns ins ts) bs -> bs = [].
Proof.
  intros He Hr%beneficiary_values_aggregate. rewrite He in Hr. cbn in Hr.
  apply Permutation_nil_r in Hr. by apply fmap_nil_inv in Hr.
Qed.

Lemma no_entries_no_payers a ns ins ts ps :
  Engine.entries rt Engine.Incoming a ns ins ts = [] ->
  rangeValues (buildPayerMap rt a ns ins ts) ps -> ps = [].
Proof.
  intros He Hr%payer_values_aggregate. rewrite He in Hr. cbn in Hr.
  apply Permutation_nil_r in Hr. by apply fmap_nil_inv in Hr.
Qed.

(** C10.  When the three fetches succeed and no record passes the direction
    filter and the error exclusion, [AnalyzeBeneficiary] (resp.
    [AnalyzePayer]) returns the empty, non-nil list with a nil error, and
    nothing else. *)
Theorem C10_empty_result c sched a :
  fetchedOk (fetchAll c a) -> completeSchedule sched ->
  let f := fetchAll c a in
  (Engine.entries rt Engine.Outgoing a (normalRecords f) (internalRecords f)
     (tokenRecords f) = [] ->
   AnalyzeBeneficiary rt c sched a (Slice [], None) /\
   forall res, AnalyzeBeneficiary rt c sched a res ->
     res = (Slice [], None) /\ isNil (fst res) = false) /\
  (Engine.entries rt Engine.Incoming a (normalRecords f) (internalRecords f)
     (tokenRecords f) = [] ->
   AnalyzePayer rt c sched a (Slice [], None) /\
   forall res, AnalyzePayer rt c sched a res ->
     res = (Slice [], None) /\ isNil (fst res) = false).
Proof.
  intros Hok Hc f. split; intros He.
  - assert (Hall : forall res, AnalyzeBeneficiary rt c sched a res -> res = (Slice [], None)).
    { intros res (bs & -> & Hr)%AnalyzeBeneficiary_fetched; try done.
      by rewrite (no_entries_no_beneficiaries _ _ _ _ _ He Hr). }
    split.
    + destruct (rangeValues_exists (buildBeneficiaryMap rt a (normalRecords f)
                  (internalRecords f) (tokenRecords f))) as (bs & Hr).
      pose proof (no_entries_no_beneficiaries _ _ _ _ _ He Hr) as ->.
      apply AnalyzeBeneficiary_fetched; try done. by exists [].
    + intros res Hres. by rewrite (Hall res Hres).
  - assert (Hall : forall res, AnalyzePayer rt c sched a res -> res = (Slice [], None)).
    { intros res (ps & -> & Hr)%AnalyzePayer_fetched; try done.
      by rewrite (no_entries_no_payers _ _ _ _ _ He Hr). }
    split.
    + destruct (rangeValues_exists (buildPayerMap rt a (normalRecords f)
                  (internalRecords f) (tokenRecords f))) as (ps & Hr).
      pose proof (no_entries_no_payers _ _ _ _ _ He Hr) as ->.
      apply AnalyzePayer_fetched; try done. by exists [].
    + intros res Hres. by rewrite (Hall res Hres).
Qed.

End EmptyResults.

Lemma C10_empty_result_witness :
  fetchedOk (fetchAll (recordsClient [] [] [] "0xA") "0xA") /\
  completeSchedule serialRun /\
  AnalyzeBeneficiary exampleRuntime (recordsClient [] [] [] "0xA") serialRun "0xA"
    (Slice [], None) /\
  AnalyzePayer exampleRuntime (recordsClient [failedTx] [] [] "0xD") serialRun "0xD"
    (Slice [], None).
Proof.
  split; [apply recordsClient_ok|]. split; [apply serialRun_complete|]. split.
  - refine (proj1 (proj1
      (C10_empty_result exampleRuntime (recordsClient [] [] [] "0xA") serialRun "0xA"
         (recordsClient_ok _ _ _ _) serialRun_complete) _)).
    rewrite recordsClient_fetched. reflexivity.
  - refine (proj1 (proj2
      (C10_empty_result exampleRuntime (recordsClient [failedTx] [] [] "0xD") serialRun "0xD"
         (recordsClient_ok _ _ _ _) serialRun_complete) _)).
    rewrite recordsClient_fetched. reflexivity.
Defined.

(* ===================================================================== *)
(** ** The requests of a fetch *)

(** [fetchTransactions] stops at the first answered request; it sleeps one
    second before the second request and four before the third, and issues
    no fourth. *)
Theorem fetchTransactions_backoff (get : nat -> getOutcome Transaction.t) :
  let trace := fst (fetchTransactions get) in
  (exists resp, get 0%nat = inr resp /\ trace = [Get]) \/
  (exists e0 resp, get 0%nat = inl e0 /\ get 1%nat = inr resp /\
                   trace = [Get; Sleep 1; Get]) \/
  (exists e0 e1, get 0%nat = inl e0 /\ get 1%nat = inl e1 /\
                 trace = [Get; Sleep 1; Get; Sleep 4; Get]).
Proof.
  unfold fetchTransactions. cbn.
  destruct (get 0%nat) as [e0|r0] eqn:H0; [|left; eauto].
  right. cbn. destruct (get 1%nat) as [e1|r1] eqn:H1; [|left; eauto].
  right. exists e0, e1. cbn. by destruct (get 2%nat).
Qed.

(** After three transport failures [fetchTransactions] returns the third,
    wrapped, and a nil slice. *)
Theorem fetchTransactions_exhausted (get : nat -> getOutcome Transaction.t) e0 e1 e2 :
  get 0%nat = inl e0 -> get 1%nat = inl e1 -> get 2%nat = inl e2 ->
  fetchTransactions get =
  ([Get; Sleep 1; Get; Sleep 4; Get],
   (nilSlice, Some (wrapError "error fetching transactions after 3 retries" e2))).
Proof.
  intros H0 H1 H2. unfold fetchTransactions.
  by rewrite (retryLoop_exhausted get e0 e1 e2 H0 H1 H2).
Qed.

Lemma fetchTransactions_exhausted_witness :
  GetNormalTransactions downClient "0xA" =
  ([Get; Sleep 1; Get; Sleep 4; Get],
   (nilSlice,
    Some "error fetching transactions after 3 retries: connection refused"%string)).
Proof.
  exact (fetchTransactions_exhausted
           (getTransactions (httpClient downClient) (endpointFor "txlist" "0xA" "KEY"))
           "connection refused" "connection refused" "connection refused"
           eq_refl eq_refl eq_refl).
Defined.

Lemma retryLoop_answered {A} (get : nat -> getOutcome A) (k : nat) resp :
  (k < maxRetries)%nat -> (forall i, (i < k)%nat -> exists e, get i = inl e) ->
  get k = inr resp -> snd (retryLoop get (maxRetries - 1) 0) = inr resp.
Proof.
  unfold maxRetries. intros Hk Hfail Hget. cbn.
  destruct k as [|[|[|k]]]; try lia.
  - by rewrite Hget.
  - destruct (Hfail 0%nat ltac:(lia)) as (e0 & ->). cbn. by rewrite Hget.
  - destruct (Hfail 0%nat ltac:(lia)) as (e0 & ->).
    destruct (Hfail 1%nat ltac:(lia)) as (e1 & H1). cbn. rewrite H1. cbn. by rewrite Hget.
Qed.

(** Transport failures before the first answered request, if it is one of
    the three, leave no mark on the result of [fetchTransactions]. *)
Theorem fetchTransactions_retry_transparent (get : nat -> getOutcome Transaction.t)
    (k : nat) resp :
  (k < maxRetries)%nat -> (forall i, (i < k)%nat -> exists e, get i = inl e) ->
  get k = inr resp ->
  snd (fetchTransactions get) = snd (fetchTransactions (fun _ => inr resp)).
Proof.
  intros Hk Hfail Hget.
  pose proof (retryLoop_answered get k resp Hk Hfail Hget) as H1.
  pose proof (retryLoop_answered (fun _ => inr resp) 0 resp ltac:(unfold maxRetries; lia)
                ltac:(intros; lia) eq_refl) as H2.
  unfold fetchTransactions.
  destruct (retryLoop get _ _) as [t1 o1], (retryLoop (fun _ => inr resp) _ _) as [t2 o2].
  cbn [snd] in *. by subst.
Qed.

Lemma fetchTransactions_retry_transparent_witness :
  snd (fetchTransactions (flakyGet 2 "connection reset" (Body (okBody [txToB])))) =
  (Slice [txToB], None).
Proof.
  refine (eq_trans (fetchTransactions_retry_transparent
            (flakyGet 2 "connection reset" (Body (okBody [txToB]))) 2
            (Body (okBody [txToB])) _ _ eq_refl) eq_refl).
  - unfold maxRetries. lia.
  - intros i Hi. exists "connection reset"%string. unfold flakyGet.
    destruct (Nat.ltb_spec i 2); [reflexivity|lia].
Defined.

(** Neither fetcher returns records together with an error. *)
Theorem fetch_error_nil_slice (c : Client) (a : string)
    (get : nat -> getOutcome Transaction.t) :
  (snd (snd (fetchTransactions get)) <> None ->
   fst (snd (fetchTransactions get)) = nilSlice) /\
  (snd (snd (GetTokenTransfers c a)) <> None ->
   fst (snd (GetTokenTransfers c a)) = nilSlice).
Proof.
  split.
  - unfold fetchTransactions. destruct (retryLoop get _ _) as [trace out]. cbn [fst snd].
    destruct out as [e|[e|b]]; try done.
    destruct (asResponse b) as [e|[[status message] result]].
    + by destruct (errorResultOutcome b).
    + destruct (String.eqb status "0" && String.eqb message "No transactions found");
        [done|]. by destruct (String.eqb status "0").
  - unfold GetTokenTransfers. cbn [fst snd].
    destruct (getTokenTransfers _ _ _) as [e|[e|b]]; try done.
    destruct (asResponse b) as [e|[[status message] result]]; [done|].
    destruct (String.eqb status "0"); [|done].
    destruct (String.eqb message "No transactions found"); [done|].
    by destruct (errorResultOutcome b).
Qed.

Lemma fetch_error_nil_slice_witness :
  fst (snd (fetchTransactions (fun _ => inl "connection refused"%string))) = nilSlice /\
  fst (snd (GetTokenTransfers downClient "0xA")) = nilSlice.
Proof.
  split.
  - exact (proj1 (fetch_error_nil_slice downClient "0xA"
                    (fun _ => inl "connection refused"%string)) ltac:(discriminate)).
  - exact (proj2 (fetch_error_nil_slice downClient "0xA"
                    (fun _ => inl "connection refused"%string)) ltac:(discriminate)).
Defined.

(** A response whose result member is the string ["Max rate limit reached"]
    does not decode as an array of records.  [fetchTransactions] then decodes
    it a second time and reports the rate limit; [GetTokenTransfers] returns
    the decoding error before it looks at the string. *)
Theorem rate_limit_reported_by_fetchTransactions_only (c : Client) (a : string)
    (get : nat -> getOutcome Transaction.t)
    (b1 : responseBody Transaction.t) (b2 : responseBody TokenTransfer.t)
    (e1 e2 : error) (s1 m1 s2 m2 : string) :
  snd (retryLoop get (maxRetries - 1) 0) = inr (Body b1) ->
  asResponse b1 = inl e1 -> asErrorResult b1 = inr (s1, m1, "Max rate limit reached"%string) ->
  getTokenTransfers (httpClient c) (endpointFor "tokentx" a (apiKey c)) 0%nat
    = inr (Body b2) ->
  asResponse b2 = inl e2 -> asErrorResult b2 = inr (s2, m2, "Max rate limit reached"%string) ->
  snd (fetchTransactions get) = (nilSlice, Some rateLimitMessage) /\
  snd (GetTokenTransfers c a) =
    (nilSlice, Some (wrapError "error unmarshaling response" e2)).
Proof.
  intros Hget Hr1 He1 Htok Hr2 He2. split.
  - unfold fetchTransactions. destruct (retryLoop get _ _) as [trace out].
    cbn [snd] in *. subst out. unfold errorResultOutcome. by rewrite Hr1, He1.
  - unfold GetTokenTransfers. cbn [snd]. by rewrite Htok, Hr2.
Qed.

Lemma rate_limit_reported_by_fetchTransactions_only_witness :
  snd (GetNormalTransactions
         (constClient (inr (Body rateLimitBody)) (inr (Body rateLimitBody))
            (inr (Body rateLimitBody)) "0xA") "0xA") =
    (nilSlice, Some "etherscan API rate limit exceeded, please try again later"%string) /\
  snd (GetTokenTransfers
         (constClient (inr (Body rateLimitBody)) (inr (Body rateLimitBody))
            (inr (Body rateLimitBody)) "0xA") "0xA") =
    (nilSlice,
     Some "error unmarshaling response: json: cannot unmarshal string into Go struct field"%string).
Proof.
  exact (rate_limit_reported_by_fetchTransactions_only
           (constClient (inr (Body rateLimitBody)) (inr (Body rateLimitBody))
              (inr (Body rateLimitBody)) "0xA") "0xA"
           (getTransactions
              (httpClient (constClient (inr (Body rateLimitBody)) (inr (Body rateLimitBody))
                             (inr (Body rateLimitBody)) "0xA"))
              (endpointFor "txlist" "0xA" "KEY"))
           rateLimitBody rateLimitBody _ _ "0" "NOTOK" "0" "NOTOK"
           eq_refl eq_refl eq_refl eq_refl eq_refl eq_refl).
Defined.

(* ===================================================================== *)
(** ** Errors of the fetch group *)

Section GroupErrors.

Variable rt : GoRuntime.

Lemma group_error_result c sched a e :
  groupErr (runSchedule (fetchAll c a) sched) = Some e ->
  (forall res, AnalyzeBeneficiary rt c sched a res <-> res = (nilSlice, Some e)) /\
  (forall res, AnalyzePayer rt c sched a res <-> res = (nilSlice, Some e)).
Proof.
  intros Hg. split; intros res; split.
  - intros H. inversion H as [e' He'|bs st Hnone Hr]; subst.
    + rewrite Hg in He'. by injection He' as <-.
    + subst st. rewrite Hg in Hnone. discriminate.
  - intros ->. by constructor.
  - intros H. inversion H as [e' He'|ps st Hnone Hr]; subst.
    + rewrite Hg in He'. by injection He' as <-.
    + subst st. rewrite Hg in Hnone. discriminate.
  - intros ->. by constructor.
Qed.






End GroupErrors.


Section SerialRuns.

Variable rt : GoRuntime.

Lemma serialSchedule_cases sched :
  serialSchedule sched ->
  sched = [NormalTask; NormalTask; InternalTask; InternalTask; TokenTask; TokenTask] \/
  sched = [NormalTask; NormalTask; TokenTask; TokenTask; InternalTask; InternalTask] \/
  sched = [InternalTask; InternalTask; NormalTask; NormalTask; TokenTask; TokenTask] \/
  sched = [InternalTask; InternalTask; TokenTask; TokenTask; NormalTask; NormalTask] \/
  sched = [TokenTask; TokenTask; NormalTask; NormalTask; InternalTask; InternalTask] \/
  sched = [TokenTask; TokenTask; InternalTask; InternalTask; NormalTask; NormalTask].
Proof.
  intros (x & y & z & Hp & ->).
  assert (Hn : NormalTask ∈ [x; y; z]) by (rewrite Hp; repeat constructor).
  assert (Hi : InternalTask ∈ [x; y; z]) by (rewrite Hp; repeat constructor).
  assert (Ht : TokenTask ∈ [x; y; z]) by (rewrite Hp; repeat constructor).
  apply list_elem_of_In in Hn, Hi, Ht. cbn [In] in Hn, Hi, Ht.
  destruct x, y, z; intuition (discriminate || reflexivity).
Qed.

Lemma serial_run_error f sched :
  serialSchedule sched -> ~ fetchedOk f ->
  exists prefix e, ownError f prefix e /\
                   groupErr (runSchedule f sched) = Some (wrapError prefix e).
Proof.
  intros Hs Hbad. unfold fetchedOk in Hbad.
  apply serialSchedule_cases in Hs. unfold ownError.
  destruct (snd (fetchedNormal f)) as [en|] eqn:En;
    destruct (snd (fetchedInternal f)) as [ei|] eqn:Ei;
    destruct (snd (fetchedToken f)) as [et|] eqn:Et; try tauto;
    destruct Hs as [->|[->|[->|[->|[->| ->]]]]];
    unfold runSchedule; cbn; unfold taskReturn; cbn;
    rewrite ?En, ?Ei, ?Et; cbn; rewrite ?En, ?Ei, ?Et; cbn;
    eexists _, _; (split; [|reflexivity]); intuition congruence.
Qed.

(** When no goroutine runs between the assignment and the test of another,
    a failed fetch makes both analyses return a nil list and the error of a
    fetch that failed, under the message of that fetch. *)
Theorem serial_run_reports_failure c sched a :
  serialSchedule sched -> ~ fetchedOk (fetchAll c a) ->
  exists prefix e, ownError (fetchAll c a) prefix e /\
    (forall res, AnalyzeBeneficiary rt c sched a res <->
                 res = (nilSlice, Some (wrapError prefix e))) /\
    (forall res, AnalyzePayer rt c sched a res <->
                 res = (nilSlice, Some (wrapError prefix e))).
Proof.
  intros Hs Hbad.
  destruct (serial_run_error _ _ Hs Hbad) as (prefix & e & Hown & Hg).
  exists prefix, e. split; [exact Hown|]. by apply group_error_result.
Qed.

(** Under [blamingSchedule] the failure of the normal-transaction fetch is
    returned under the message of the token-transfer fetch, which
    succeeded. *)
Theorem error_blamed_on_other_fetch c a e :
  snd (fetchedNormal (fetchAll c a)) = Some e ->
  snd (fetchedToken (fetchAll c a)) = None ->
  completeSchedule blamingSchedule /\
  ~ ownError (fetchAll c a) "error fetching token transfers" e /\
  AnalyzeBeneficiary rt c blamingSchedule a
    (nilSlice, Some (wrapError "error fetching token transfers" e)) /\
  AnalyzePayer rt c blamingSchedule a
    (nilSlice, Some (wrapError "error fetching token transfers" e)).
Proof.
  intros Hn Ht.
  assert (Hg : groupErr (runSchedule (fetchAll c a) blamingSchedule) =
               Some (wrapError "error fetching token transfers" e)).
  { revert Hn Ht. generalize (fetchAll c a). intros f Hn Ht.
    unfold runSchedule, blamingSchedule. cbn. unfold taskReturn. cbn.
    rewrite Hn. reflexivity. }
  split_and!.
  - unfold completeSchedule. apply (bool_decide_unpack _). vm_compute. exact I.
  - unfold ownError. rewrite Ht. intros [[H _]|[[H _]|[_ H]]]; discriminate.
  - by apply (proj1 (group_error_result rt c _ a _ Hg)).
  - by apply (proj2 (group_error_result rt c _ a _ Hg)).
Qed.

End SerialRuns.

Lemma serial_run_reports_failure_witness :
  serialSchedule serialRun /\ ~ fetchedOk (fetchAll (normalDownClient [txToB] [] "0xA") "0xA") /\
  exists prefix e,
    ownError (fetchAll (normalDownClient [txToB] [] "0xA") "0xA") prefix e /\
    AnalyzeBeneficiary exampleRuntime (normalDownClient [txToB] [] "0xA") serialRun "0xA"
      (nilSlice, Some (wrapError prefix e)).
Proof.
  assert (Hs : serialSchedule serialRun).
  { exists NormalTask, InternalTask, TokenTask. split; reflexivity. }
  assert (Hbad : ~ fetchedOk (fetchAll (normalDownClient [txToB] [] "0xA") "0xA")).
  { intros (H & _). discriminate H. }
  split; [exact Hs|]. split; [exact Hbad|].
  destruct (serial_run_reports_failure exampleRuntime (normalDownClient [txToB] [] "0xA")
              serialRun "0xA" Hs Hbad) as (prefix & e & Hown & Hb & _).
  exists prefix, e. split; [exact Hown|]. by apply Hb.
Defined.

Lemma error_blamed_on_other_fetch_witness :
  AnalyzeBeneficiary exampleRuntime (normalDownClient [txToB] [] "0xA") blamingSchedule "0xA"
    (nilSlice,
     Some "error fetching token transfers: error fetching transactions after 3 retries: connection refused"%string).
Proof.
  exact (proj1 (proj2 (proj2
    (error_blamed_on_other_fetch exampleRuntime (normalDownClient [txToB] [] "0xA") "0xA"
       "error fetching transactions after 3 retries: connection refused"
       eq_refl eq_refl)))).
Defined.

(* ===================================================================== *)
(** ** Interleavings, directions and spellings *)

Section Symmetries.

Variable rt : GoRuntime.

(** When the three fetches succeed, the interleaving of the goroutines has
    no effect on what an analysis can return. *)
Theorem schedule_irrelevant_when_fetched c s1 s2 a :
  fetchedOk (fetchAll c a) -> completeSchedule s1 -> completeSchedule s2 ->
  (forall res, AnalyzeBeneficiary rt c s1 a res <-> AnalyzeBeneficiary rt c s2 a res) /\
  (forall res, AnalyzePayer rt c s1 a res <-> AnalyzePayer rt c s2 a res).
Proof.
  intros Hok H1 H2. split; intros res.
  - by rewrite !AnalyzeBeneficiary_fetched.
  - by rewrite !AnalyzePayer_fetched.
Qed.

Lemma txEntry_swap a (l : list Transaction.t) :
  omap (Engine.txEntry rt Engine.Incoming a) (swapTx <$> l) =
  omap (Engine.txEntry rt Engine.Outgoing a) l.
Proof. induction l as [|tx l IH]; [done|]. cbn. by rewrite IH. Qed.

Lemma tokenEntry_swap a (l : list TokenTransfer.t) :
  omap (Engine.tokenEntry rt Engine.Incoming a) (swapTransfer <$> l) =
  omap (Engine.tokenEntry rt Engine.Outgoing a) l.
Proof. induction l as [|tr l IH]; [done|]. cbn. by rewrite IH. Qed.

(** The payers of a record set are the beneficiaries of the record set with
    the two endpoints of every record exchanged: the two analyzers build the
    same map, seen as aggregates. *)
Theorem payer_beneficiary_duality a ns ins ts :
  ofPayer <$> buildPayerMap rt a (swapTx <$> ns) (swapTx <$> ins) (swapTransfer <$> ts) =
  ofBeneficiary <$> buildBeneficiaryMap rt a ns ins ts.
Proof.
  rewrite buildPayerMap_view, buildBeneficiaryMap_view. unfold Engine.entries.
  by rewrite !txEntry_swap, tokenEntry_swap.
Qed.

End Symmetries.

Lemma schedule_irrelevant_when_fetched_witness :
  completeSchedule serialRun /\ completeSchedule racySchedule /\
  forall res,
    AnalyzeBeneficiary exampleRuntime (recordsClient [txToB; txToC] [] [] "0xA")
      serialRun "0xA" res <->
    AnalyzeBeneficiary exampleRuntime (recordsClient [txToB; txToC] [] [] "0xA")
      racySchedule "0xA" res.
Proof.
  split; [apply serialRun_complete|]. split; [apply racySchedule_complete|].
  exact (proj1 (schedule_irrelevant_when_fetched exampleRuntime
                  (recordsClient [txToB; txToC] [] [] "0xA") serialRun racySchedule "0xA"
                  (recordsClient_ok _ _ _ _) serialRun_complete racySchedule_complete)).
Defined.

(* ===================================================================== *)
(** ** Matching of ASCII addresses, both ways *)

Lemma asciiPairOk_all :
  forallb (fun c => forallb (asciiPairOk c) allBytes) allBytes = true.
Proof. vm_compute. reflexivity. Qed.

Lemma asciiPairOk_spec c d :
  isASCII c = true -> isASCII d = true ->
  (RuneSelf <=? Z.lor (byteVal c) (byteVal d)) = false /\
  foldsTogether c d = sameLetter c d.
Proof.
  intros Hc Hd. pose proof asciiPairOk_all as A.
  rewrite forallb_forall in A. specialize (A c (allBytes_complete c)).
  rewrite forallb_forall in A. specialize (A d (allBytes_complete d)).
  unfold asciiPairOk in A. rewrite Hc, Hd in A. cbn in A.
  apply andb_prop in A as [A1 A2]. apply negb_true_iff in A1.
  split; [exact A1|]. by apply eqb_prop.
Qed.

Section Matching.

Variable rt : GoRuntime.

Lemma EqualFold_ascii_inv s t :
  asciiOnly s = true -> asciiOnly t = true -> EqualFold rt s t = true ->
  lowerASCII s = lowerASCII t.
Proof.
  revert t. induction s as [|c s IH]; intros [|d t] Hs Ht He; try done.
  cbn in Hs, Ht. apply andb_prop in Hs as [Hc Hs]. apply andb_prop in Ht as [Hd Ht].
  destruct (asciiPairOk_spec c d Hc Hd) as [Hfast Hsame].
  assert (Hstep : foldsTogether c d = true /\ EqualFold rt s t = true).
  { cbn [EqualFold] in He. rewrite Hfast in He. unfold foldsTogether. rewrite Hfast.
    cbn [negb andb].
    destruct (byteVal d =? byteVal c); [done|]. cbn [orb].
    destruct ((65 <=? Z.min (byteVal c) (byteVal d)) &&
              (Z.min (byteVal c) (byteVal d) <=? 90) &&
              (Z.max (byteVal c) (byteVal d) =? Z.min (byteVal c) (byteVal d) + 97 - 65));
      done. }
  destruct Hstep as [Hf Hrec]. rewrite Hsame in Hf. unfold sameLetter in Hf.
  rewrite Hc, Hd in Hf. cbn in Hf. apply Ascii.eqb_eq in Hf.
  cbn [lowerASCII]. by rewrite Hf, (IH t Hs Ht Hrec).
Qed.

(** For ASCII strings, the comparison that selects the records holds
    exactly when the two strings are equal up to the case of their letters;
    a transaction or transfer whose endpoint differs from the address in any
    other way leaves the maps as they are. *)
Theorem address_match_is_ascii_case_folding a (tx : Transaction.t) (tr : TokenTransfer.t)
    (mb : gmap string Beneficiary.t) (mp : gmap string Payer.t) :
  asciiOnly a = true ->
  (forall s, asciiOnly s = true ->
     (EqualFold rt s a = true <-> lowerASCII s = lowerASCII a)) /\
  (asciiOnly (Transaction.From tx) = true ->
   lowerASCII (Transaction.From tx) <> lowerASCII a -> beneficiaryTxStep rt a mb tx = mb) /\
  (asciiOnly (TokenTransfer.From tr) = true ->
   lowerASCII (TokenTransfer.From tr) <> lowerASCII a ->
   beneficiaryTokenStep rt a mb tr = mb) /\
  (asciiOnly (Transaction.To tx) = true ->
   lowerASCII (Transaction.To tx) <> lowerASCII a -> payerTxStep rt a mp tx = mp) /\
  (asciiOnly (TokenTransfer.To tr) = true ->
   lowerASCII (TokenTransfer.To tr) <> lowerASCII a -> payerTokenStep rt a mp tr = mp).
Proof.
  intros Ha.
  assert (Hno : forall s, asciiOnly s = true -> lowerASCII s <> lowerASCII a ->
                          EqualFold rt s a = false).
  { intros s Hs Hne. destruct (EqualFold rt s a) eqn:E; [|done].
    by apply EqualFold_ascii_inv in E. }
  split_and!.
  - intros s Hs. split; [by apply EqualFold_ascii_inv|by apply EqualFold_ascii].
  - intros Hs Hne. unfold beneficiaryTxStep. by rewrite (Hno _ Hs Hne).
  - intros Hs Hne. unfold beneficiaryTokenStep. by rewrite (Hno _ Hs Hne).
  - intros Hs Hne. unfold payerTxStep. by rewrite (Hno _ Hs Hne).
  - intros Hs Hne. unfold payerTokenStep. by rewrite (Hno _ Hs Hne).
Qed.

(** Counterparties are keyed by the exact string of the record: two
    contributing transactions whose [To] strings differ are counted under two
    aggregates, also when the strings differ in letter case only. *)
Theorem counterparty_spelling_kept c sched a bs tx1 tx2 :
  let f := fetchAll c a in
  fetchedOk f -> completeSchedule sched ->
  AnalyzeBeneficiary rt c sched a (Slice bs, None) ->
  (tx1 ∈ normalRecords f \/ tx1 ∈ internalRecords f) ->
  (tx2 ∈ normalRecords f \/ tx2 ∈ internalRecords f) ->
  EqualFold rt (Transaction.From tx1) a = true -> Transaction.IsError tx1 = "0"%string ->
  EqualFold rt (Transaction.From tx2) a = true -> Transaction.IsError tx2 = "0"%string ->
  Transaction.To tx1 <> Transaction.To tx2 ->
  exists b1 b2, b1 ∈ bs /\ b2 ∈ bs /\ b1 <> b2 /\
    Beneficiary.Address b1 = Transaction.To tx1 /\
    Beneficiary.Address b2 = Transaction.To tx2 /\
    detailOf rt tx1 ∈ Beneficiary.Transactions b1 /\
    detailOf rt tx2 ∈ Beneficiary.Transactions b2.
Proof.
  intros f Hok Hc (x & [= <-] & Hr)%AnalyzeBeneficiary_fetched Hin1 Hin2 E1 S1 E2 S2 Hne;
    try done.
  destruct (tx_contributes rt Engine.Outgoing a _ _ (tokenRecords f) tx1 Hin1 E1 S1)
    as (y1 & Hy1 & K1 & D1).
  destruct (tx_contributes rt Engine.Outgoing a _ _ (tokenRecords f) tx2 Hin2 E2 S2)
    as (y2 & Hy2 & K2 & D2).
  destruct (aggregate_in_beneficiaries _ _ _ _ _ _ _ Hr Hy1) as (b1 & Hb1 & <-).
  destruct (aggregate_in_beneficiaries _ _ _ _ _ _ _ Hr Hy2) as (b2 & Hb2 & <-).
  exists b1, b2. split_and!; try done.
  intros ->. apply Hne. cbn in K1, K2. congruence.
Qed.

End Matching.

Lemma address_match_is_ascii_case_folding_witness :
  asciiOnly "0xabc" = true /\
  (EqualFold exampleRuntime "0xABC" "0xabc" = true <->
   lowerASCII "0xABC" = lowerASCII "0xabc") /\
  beneficiaryTxStep exampleRuntime "0xabd" ∅ upperCaseTx = ∅.
Proof.
  split; [reflexivity|]. split.
  - exact (proj1 (address_match_is_ascii_case_folding exampleRuntime "0xabc" upperCaseTx
                    transferToE ∅ ∅ eq_refl) "0xABC"%string eq_refl).
  - exact (proj1 (proj2 (address_match_is_ascii_case_folding exampleRuntime "0xabd"
                    upperCaseTx transferToE ∅ ∅ eq_refl)) eq_refl ltac:(discriminate)).
Defined.

Lemma counterparty_spelling_kept_witness :
  EqualFold exampleRuntime (Transaction.To txToUpperAB) (Transaction.To txToLowerAB) = true /\
  forall bs,
    AnalyzeBeneficiary exampleRuntime (recordsClient [txToUpperAB; txToLowerAB] [] [] "0xA")
      serialRun "0xA" (Slice bs, None) ->
    exists b1 b2, b1 ∈ bs /\ b2 ∈ bs /\ b1 <> b2 /\
      Beneficiary.Address b1 = "0xAB"%string /\ Beneficiary.Address b2 = "0xab"%string.
Proof.
  split; [reflexivity|]. intros bs Hbs.
  destruct (counterparty_spelling_kept exampleRuntime
              (recordsClient [txToUpperAB; txToLowerAB] [] [] "0xA") serialRun "0xA" bs
              txToUpperAB txToLowerAB (recordsClient_ok _ _ _ _) serialRun_complete Hbs)
    as (b1 & b2 & H1 & H2 & Hne & A1 & A2 & _).
  - left. rewrite recordsClient_fetched. cbn. apply list_elem_of_here.
  - left. rewrite recordsClient_fetched. cbn. apply list_elem_of_further, list_elem_of_here.
  - reflexivity.
  - reflexivity.
  - reflexivity.
  - reflexivity.
  - discriminate.
  - exists b1, b2. split_and!; assumption.
Defined.

(* ===================================================================== *)
(** ** The two integer parsers of a timestamp *)

Lemma scanDigits_spec s : forall acc k,
  let '(n, k', rest) := scanDigits s acc k in
  (k' = k + (String.length s - String.length rest))%nat /\
  (String.length rest <= String.length s)%nat /\
  (0 <= acc -> 0 <= n) /\
  parseDigits s acc = (if String.eqb rest "" then Some n else None) /\
  (String.eqb rest "" = true -> digitsOnly s = true).
Proof.
  induction s as [|c s IH]; intros acc k.
  - cbn. repeat split; try done; lia.
  - cbn [scanDigits parseDigits digitsOnly]. destruct (isDigit c) eqn:Hc.
    + specialize (IH (10 * acc + (byteVal c - 48)) (S k)).
      destruct (scanDigits s _ _) as [[n k'] rest].
      destruct IH as (Hk & Hl & Hn & Hp & Hd). cbn [String.length].
      split; [lia|]. split; [lia|]. split; [|by split].
      intros Hacc. apply Hn. unfold isDigit in Hc. lia.
    + cbn. repeat split; try done; lia.
Qed.

Lemma ParseInt_scan s :
  ParseInt s =
  let (neg, r) := scanSign s in
  match scanDigits r 0 0 with
  | (n, S _, rest) =>
      if String.eqb rest "" then
        if negb neg && (2 ^ 63 <=? n) then None
        else if neg && (2 ^ 63 <? n) then None
        else Some (if neg then - n else n)
      else None
  | _ => None
  end.
Proof.
  destruct s as [|c s]; [reflexivity|].
  unfold ParseInt, scanSign.
  assert (Hbody : forall body : string,
            parseUintDigits body =
            match scanDigits body 0 0 with
            | (n, S _, rest) => if String.eqb rest "" then Some n else None
            | _ => None
            end).
  { intros body. pose proof (scanDigits_spec body 0 0%nat) as H.
    destruct (scanDigits body 0 0) as [[n k'] rest].
    destruct H as (Hk & Hl & _ & Hp & _). unfold parseUintDigits.
    destruct body as [|d body]; [by cbn in *; subst k'|].
    rewrite Hp. destruct k' as [|k']; [|done].
    destruct rest as [|? ?]; [cbn in Hk; lia|done]. }
  destruct (byteVal c =? 45) eqn:Hm.
  - rewrite orb_true_r, Hbody.
    destruct (scanDigits s 0 0) as [[n [|k']] rest]; [done|].
    by destruct (String.eqb rest "").
  - destruct (byteVal c =? 43) eqn:Hp; cbn [orb]; rewrite Hbody.
    + destruct (scanDigits s 0 0) as [[n [|k']] rest]; [done|].
      by destruct (String.eqb rest "").
    + destruct (scanDigits (String c s) 0 0) as [[n [|k']] rest]; [done|].
      by destruct (String.eqb rest "").
Qed.

(** [stringToInt64], which the debug output of [processBeneficiary] calls on
    the timestamp, and [strconv.ParseInt], on which [FormatTime] relies,
    accept the same strings and read the same integer. *)
Theorem stringToInt64_agrees_with_ParseInt (s : string) :
  match ParseInt s with
  | Some n => stringToInt64 s = (n, None) /\ - 2 ^ 63 <= n < 2 ^ 63
  | None => fst (stringToInt64 s) = 0 /\ snd (stringToInt64 s) <> None
  end.
Proof.
  rewrite ParseInt_scan. unfold stringToInt64.
  destruct (scanSign s) as [neg r].
  pose proof (scanDigits_spec r 0 0%nat) as H.
  destruct (scanDigits r 0 0) as [[n k'] rest].
  destruct H as (_ & _ & Hn & _ & _). specialize (Hn ltac:(lia)).
  destruct k' as [|k']; [done|].
  destruct (String.eqb rest ""); [|done].
  unfold IsInt64.
  destruct neg; cbn [negb andb].
  - destruct (Z.ltb_spec (2 ^ 63) n).
    + destruct (Z.leb_spec (- 2 ^ 63) (- n)); [lia|]. done.
    + destruct (Z.leb_spec (- 2 ^ 63) (- n)); [|lia].
      destruct (Z.ltb_spec (- n) (2 ^ 63)); [|lia]. cbn. split; [done|lia].
  - destruct (Z.leb_spec (2 ^ 63) n).
    + destruct (Z.ltb_spec n (2 ^ 63)); [lia|]. by rewrite andb_false_r.
    + destruct (Z.leb_spec (- 2 ^ 63) n); [|lia].
      destruct (Z.ltb_spec n (2 ^ 63)); [|lia]. cbn. split; [done|lia].
Qed.




(* ===================================================================== *)
(** ** The latest block number *)

Lemma hexChar_spec d :
  0 <= d < 16 ->
  hexVal (hexChar d) = Some d /\ (byteVal (hexChar d) =? 43) = false /\
  (byteVal (hexChar d) =? 45) = false.
Proof.
  intros H.
  assert (Hd : d = 0 \/ d = 1 \/ d = 2 \/ d = 3 \/ d = 4 \/ d = 5 \/ d = 6 \/ d = 7 \/
               d = 8 \/ d = 9 \/ d = 10 \/ d = 11 \/ d = 12 \/ d = 13 \/ d = 14 \/ d = 15)
    by lia.
  repeat (destruct Hd as [->|Hd]; [by vm_compute|]). subst d. by vm_compute.
Qed.

Lemma parseHexDigits_hexDigits fuel : forall u acc,
  0 <= u < 16 ^ Z.of_nat fuel ->
  parseHexDigits (hexDigits fuel u acc) 0 = parseHexDigits acc u.
Proof.
  induction fuel as [|fuel IH]; intros u acc Hu.
  - cbn in *. by replace u with 0 by lia.
  - cbn [hexDigits]. rewrite Nat2Z.inj_succ, Z.pow_succ_r in Hu by lia.
    pose proof (Z.mod_pos_bound u 16 ltac:(lia)) as Hm.
    pose proof (Z.div_mod u 16 ltac:(lia)) as Hdm.
    destruct (Z.ltb_spec u 16).
    + cbn [parseHexDigits]. rewrite (proj1 (hexChar_spec _ Hm)).
      rewrite Z.mod_small by lia. f_equal.
    + rewrite IH by (split; [apply Z.div_pos; lia|apply Z.div_lt_upper_bound; lia]).
      cbn [parseHexDigits]. rewrite (proj1 (hexChar_spec _ Hm)). f_equal. lia.
Qed.

Lemma hexDigits_head fuel : forall u acc,
  0 <= u -> exists d rest, 0 <= d < 16 /\ hexDigits (S fuel) u acc = String (hexChar d) rest.
Proof.
  induction fuel as [|fuel IH]; intros u acc Hu;
    pose proof (Z.mod_pos_bound u 16 ltac:(lia)) as Hm.
  - cbn [hexDigits]. destruct (u <? 16); eauto.
  - change (hexDigits (S (S fuel)) u acc)
      with (if u <? 16 then String (hexChar (u mod 16)) acc
            else hexDigits (S fuel) (u / 16) (String (hexChar (u mod 16)) acc)).
    destruct (u <? 16); [eauto|]. apply IH. apply Z.div_pos; lia.
Qed.

(** [GetLatestBlockNumber] returns every block number below 2^63 that the
    node writes as a 0x-prefixed hexadecimal numeral. *)
Theorem GetLatestBlockNumber_reads_hex (numError : string -> error) (n : Z) :
  0 <= n < 2 ^ 63 ->
  GetLatestBlockNumber numError (BlockDecoded (hexQuantity n)) = BlockReturn n None.
Proof.
  intros Hn. unfold hexQuantity, GetLatestBlockNumber.
  set (fuel := S (Z.to_nat (Z.log2 n))).
  assert (Hfuel : 0 <= n < 16 ^ Z.of_nat fuel).
  { split; [lia|]. unfold fuel. rewrite Nat2Z.inj_succ, Z2Nat.id by apply Z.log2_nonneg.
    destruct (Z.eq_dec n 0) as [->|Hne]; [done|].
    pose proof (Z.log2_spec n ltac:(lia)) as [_ Hlt].
    eapply Z.lt_le_trans; [exact Hlt|].
    apply Z.pow_le_mono_l. lia. }
  pose proof (parseHexDigits_hexDigits fuel n "" Hfuel) as Hparse.
  cbn [parseHexDigits] in Hparse.
  destruct (hexDigits_head (Z.to_nat (Z.log2 n)) n "" ltac:(lia)) as (d & rest & Hd & Hhead).
  fold fuel in Hhead. unfold ParseIntBase16. rewrite Hhead in *.
  destruct (hexChar_spec d Hd) as (_ & Hplus & Hminus). rewrite Hplus, Hminus.
  cbn [orb negb andb]. rewrite Hparse.
  destruct (Z.leb_spec (2 ^ 63) n); [lia|]. reflexivity.
Qed.

Lemma GetLatestBlockNumber_reads_hex_witness :
  hexQuantity 19000000 = "0x121eac0"%string /\
  GetLatestBlockNumber (fun _ => "invalid syntax"%string) (BlockDecoded "0x121eac0") =
  BlockReturn 19000000 None.
Proof.
  split; [reflexivity|].
  exact (GetLatestBlockNumber_reads_hex (fun _ => "invalid syntax"%string) 19000000
           ltac:(lia)).
Defined.

(** [GetLatestBlockNumber] panics on a result of fewer than two bytes, such
    as the empty result of a body without that member, and otherwise drops
    the first two bytes without looking at them. *)
Theorem GetLatestBlockNumber_prefix (numError : string -> error) (result : string) :
  ((String.length result < 2)%nat ->
   GetLatestBlockNumber numError (BlockDecoded result) = BlockPanic) /\
  (forall c1 c2 d1 d2 digits,
     GetLatestBlockNumber numError (BlockDecoded (String c1 (String c2 digits))) =
     GetLatestBlockNumber numError (BlockDecoded (String d1 (String d2 digits))) /\
     GetLatestBlockNumber numError (BlockDecoded (String c1 (String c2 digits))) <> BlockPanic).
Proof.
  split.
  - intros H. destruct result as [|c1 [|c2 rest]]; cbn in H; try done. lia.
  - intros c1 c2 d1 d2 digits. split; [reflexivity|].
    cbn. by destruct (ParseIntBase16 digits).
Qed.

Lemma GetLatestBlockNumber_prefix_witness :
  GetLatestBlockNumber (fun _ => "invalid syntax"%string) (BlockDecoded "") = BlockPanic.
Proof.
  exact (proj1 (GetLatestBlockNumber_prefix (fun _ => "invalid syntax"%string) "")
           ltac:(cbn; lia)).
Defined.

(* ===================================================================== *)
(** ** Responses of the handlers *)

Lemma forallb_fmap {A B} (f : A -> B) (p : B -> bool) (l : list A) :
  forallb p (f <$> l) = forallb (fun x => p (f x)) l.
Proof. induction l as [|x l IH]; [done|]. cbn. by rewrite IH. Qed.

Lemma marshals_beneficiaries msg bs :
  marshals (Api.BeneficiaryResponse msg (Slice (toBeneficiaryData <$> bs))) =
  beneficiariesMarshal bs.
Proof.
  unfold marshals, beneficiariesMarshal. cbn [elems]. rewrite forallb_fmap.
  induction bs as [|b bs IH]; [done|]. cbn [forallb]. rewrite IH. f_equal.
  unfold detailsMarshal. cbn. by rewrite forallb_fmap.
Qed.

Lemma marshals_payers msg ps :
  marshals (Api.PayerResponse msg (Slice (toPayerData <$> ps))) = payersMarshal ps.
Proof.
  unfold marshals, payersMarshal. cbn [elems]. rewrite forallb_fmap.
  induction ps as [|p ps IH]; [done|]. cbn [forallb]. rewrite IH. f_equal.
  unfold detailsMarshal. cbn. by rewrite forallb_fmap.
Qed.

Lemma HandleBeneficiary_eq address analyze :
  HandleBeneficiary address analyze =
  if String.eqb address "" then
    {| Api.code := 400; Api.contentType := "application/json";
       Api.body := Api.ErrorResponse "error" "address parameter is required" |}
  else
    match snd (analyze address) with
    | Some e => {| Api.code := 500; Api.contentType := "application/json";
                   Api.body := Api.ErrorResponse "error" e |}
    | None =>
        if beneficiariesMarshal (elems (fst (analyze address))) then
          {| Api.code := 200; Api.contentType := "application/json";
             Api.body := Api.BeneficiaryResponse "success"
                           (Slice (toBeneficiaryData <$> elems (fst (analyze address)))) |}
        else {| Api.code := 500; Api.contentType := "application/json";
                Api.body := Api.ErrorResponse "error" "Error creating response" |}
    end.
Proof.
  unfold HandleBeneficiary, respondWithError, respondWithJSON.
  destruct (String.eqb address ""); [reflexivity|].
  destruct (analyze address) as [bs [e|]]; [reflexivity|].
  by rewrite marshals_beneficiaries.
Qed.

Lemma HandlePayer_eq address analyze :
  HandlePayer address analyze =
  if String.eqb address "" then
    {| Api.code := 400; Api.contentType := "application/json";
       Api.body := Api.ErrorResponse "error" "address parameter is required" |}
  else
    match snd (analyze address) with
    | Some e => {| Api.code := 500; Api.contentType := "application/json";
                   Api.body := Api.ErrorResponse "error" e |}
    | None =>
        if payersMarshal (elems (fst (analyze address))) then
          {| Api.code := 200; Api.contentType := "application/json";
             Api.body := Api.PayerResponse "success"
                           (Slice (toPayerData <$> elems (fst (analyze address)))) |}
        else {| Api.code := 500; Api.contentType := "application/json";
                Api.body := Api.ErrorResponse "error" "Error creating response" |}
    end.
Proof.
  unfold HandlePayer, respondWithError, respondWithJSON.
  destruct (String.eqb address ""); [reflexivity|].
  destruct (analyze address) as [ps [e|]]; [reflexivity|].
  by rewrite marshals_payers.
Qed.

(** The status of a response of [HandleBeneficiary] and of [HandlePayer] is
    400 exactly when the address is empty, 200 exactly when the address is
    not empty, the analysis returned a nil error and every amount is finite,
    and 500 otherwise.  A 200 response carries ["success"] and, in the order
    of the analysis, one non-nil entry per aggregate; any other response
    carries ["error"] and a message. *)
Theorem handler_status address
    (analyzeB : string -> slice Beneficiary.t * option error)
    (analyzeP : string -> slice Payer.t * option error) :
  let rb := HandleBeneficiary address analyzeB in
  let rp := HandlePayer address analyzeP in
  (Api.code rb = 400 <-> address = ""%string) /\
  (Api.code rp = 400 <-> address = ""%string) /\
  (Api.code rb = 200 <->
   address <> ""%string /\ snd (analyzeB address) = None /\
   beneficiariesMarshal (elems (fst (analyzeB address))) = true) /\
  (Api.code rp = 200 <->
   address <> ""%string /\ snd (analyzeP address) = None /\
   payersMarshal (elems (fst (analyzeP address))) = true) /\
  (Api.code rb = 200 \/ Api.code rb = 400 \/ Api.code rb = 500) /\
  (Api.code rp = 200 \/ Api.code rp = 400 \/ Api.code rp = 500) /\
  (Api.code rb = 200 ->
   Api.body rb = Api.BeneficiaryResponse "success"
                   (Slice (toBeneficiaryData <$> elems (fst (analyzeB address))))) /\
  (Api.code rp = 200 ->
   Api.body rp = Api.PayerResponse "success"
                   (Slice (toPayerData <$> elems (fst (analyzeP address))))) /\
  (Api.code rb <> 200 -> exists msg, Api.body rb = Api.ErrorResponse "error" msg) /\
  (Api.code rp <> 200 -> exists msg, Api.body rp = Api.ErrorResponse "error" msg).
Proof.
  cbn zeta. rewrite HandleBeneficiary_eq, HandlePayer_eq.
  destruct (String.eqb_spec address "") as [->|Hne];
    [|destruct (snd (analyzeB address)) as [eb|];
      destruct (snd (analyzeP address)) as [ep|];
      try destruct (beneficiariesMarshal (elems (fst (analyzeB address))));
      try destruct (payersMarshal (elems (fst (analyzeP address))))];
    cbn [Api.code Api.body]; repeat split; intros;
    repeat match goal with H : _ /\ _ |- _ => destruct H end;
    try congruence; try lia; try tauto; eauto.
Qed.

Lemma handler_status_witness :
  Api.code (HandleBeneficiary "0xA" (fun _ => (Slice [], None))) = 200 /\
  Api.code (HandlePayer "" (fun _ => (nilSlice, Some "unused"%string))) = 400.
Proof.
  pose proof (handler_status "0xA" (fun _ => (Slice [], None))
                (fun _ => (nilSlice, Some "unused"%string))) as Ha.
  pose proof (handler_status "" (fun _ => (Slice [], None))
                (fun _ => (nilSlice, Some "unused"%string))) as He.
  cbn zeta in Ha, He. split.
  - apply (proj2 (proj1 (proj2 (proj2 Ha)))). split; [discriminate|]. split; reflexivity.
  - apply (proj2 (proj1 (proj2 He))). reflexivity.
Defined.

Lemma forallb_false_elem {A} (p : A -> bool) (l : list A) (x : A) :
  x ∈ l -> p x = false -> forallb p l = false.
Proof.
  intros Hin Hp. apply list_elem_of_In in Hin.
  induction l as [|y l IH]; [done|]. cbn [forallb].
  destruct Hin as [->|Hin]; [by rewrite Hp|].
  rewrite (IH Hin). apply andb_false_r.
Qed.

(** A contributing transaction whose value gives an amount that is not
    finite, such as the value ["Inf"], makes the beneficiary endpoint answer
    500 with ["Error creating response"], though every fetch succeeded: the
    response cannot be marshalled. *)
Theorem non_finite_amount_breaks_endpoint rt c sched a tx r :
  let f := fetchAll c a in
  a <> ""%string -> fetchedOk f -> completeSchedule sched ->
  (tx ∈ normalRecords f \/ tx ∈ internalRecords f) ->
  EqualFold rt (Transaction.From tx) a = true -> Transaction.IsError tx = "0"%string ->
  isFinite (toDisplayAmount rt (Transaction.Value tx)) = false ->
  servedBeneficiary rt c sched a r ->
  r = {| Api.code := 500; Api.contentType := "application/json";
         Api.body := Api.ErrorResponse "error" "Error creating response" |}.
Proof.
  intros f Ha Hok Hc Hin E S Hinf (analyze & Hrun & ->).
  specialize (Hrun Ha).
  apply AnalyzeBeneficiary_fetched in Hrun as (bs & Hres & Hr); try done.
  destruct (tx_contributes rt Engine.Outgoing a _ _ (tokenRecords f) tx Hin E S)
    as (y & Hy & _ & Dy).
  destruct (aggregate_in_beneficiaries _ _ _ _ _ _ _ Hr Hy) as (b & Hb & <-).
  cbn [ofBeneficiary Engine.transactions] in Dy.
  assert (Hbad : beneficiariesMarshal bs = false).
  { apply (forallb_false_elem _ _ b Hb).
    rewrite (forallb_false_elem _ _ _ Dy Hinf). apply andb_false_r. }
  rewrite HandleBeneficiary_eq, Hres. cbn [fst snd elems]. rewrite Hbad.
  by destruct (String.eqb_spec a "").
Qed.

Lemma non_finite_amount_breaks_endpoint_witness :
  isFinite (toDisplayAmount exampleRuntime "Inf") = false /\
  forall r,
    servedBeneficiary exampleRuntime (recordsClient [infiniteTx] [] [] "0xA") serialRun "0xA" r ->
    Api.code r = 500.
Proof.
  split; [reflexivity|]. intros r Hr.
  rewrite (non_finite_amount_breaks_endpoint exampleRuntime
             (recordsClient [infiniteTx] [] [] "0xA") serialRun "0xA" infiniteTx r
             ltac:(discriminate) (recordsClient_ok _ _ _ _) serialRun_complete
             ltac:(left; rewrite recordsClient_fetched; cbn; apply list_elem_of_here)
             eq_refl eq_refl eq_refl Hr).
  reflexivity.
Defined.

(* ===================================================================== *)
(** ** Start-up *)

(** Whenever [main] gets to listen, help was not asked for, the mode is one
    of the three modes, the API key is the non-empty value of the
    environment, and the port is not empty: it is the [-port] flag if given,
    else [PORT] if set, else 8080. *)
Theorem main_listens flags getenv addr key address mode :
  main flags getenv = ListenAndServe addr key address mode ->
  showHelp flags = false /\
  (mode = "beneficiary" \/ mode = "payer" \/ mode = "both")%string /\
  mode = modeFlag flags /\ address = addressFlag flags /\
  key = getenv "ETHERSCAN_API_KEY"%string /\ key <> ""%string /\
  exists port, addr = (":" ++ port)%string /\ port <> ""%string /\
    port = (if String.eqb (portFlag flags) "" then
              if String.eqb (getenv "PORT") "" then "8080" else getenv "PORT"
            else portFlag flags)%string.
Proof.
  unfold main, LoadConfig.
  destruct (showHelp flags); [discriminate|].
  destruct (String.eqb_spec (modeFlag flags) "beneficiary") as [Hb|Hb];
    destruct (String.eqb_spec (modeFlag flags) "payer") as [Hp|Hp];
    destruct (String.eqb_spec (modeFlag flags) "both") as [Ho|Ho];
    cbn [negb andb]; try discriminate;
    (destruct (String.eqb_spec (getenv "ETHERSCAN_API_KEY") "") as [Hk|Hk];
       [discriminate|]);
    cbn [EtherscanAPIKey Port]; intros [= <- <- <- <-];
    (split; [reflexivity|]); (split; [tauto|]);
    repeat (split; [done|]);
    eexists; (split; [reflexivity|]);
    destruct (String.eqb_spec (portFlag flags) "") as [Hf|Hf]; cbn [negb];
    try (destruct (String.eqb_spec (getenv "PORT") "") as [He|He]); done.
Qed.

Lemma main_listens_witness :
  main {| showHelp := false; addressFlag := "0xA"; modeFlag := "payer"; portFlag := "" |}
    keyOnlyEnv = ListenAndServe ":8080" "KEY" "0xA" "payer" /\
  exists port, ":8080"%string = (":" ++ port)%string /\ port <> ""%string.
Proof.
  split; [reflexivity|].
  destruct (main_listens
              {| showHelp := false; addressFlag := "0xA"; modeFlag := "payer"; portFlag := "" |}
              keyOnlyEnv ":8080" "KEY" "0xA" "payer" eq_refl)
    as (_ & _ & _ & _ & _ & _ & port & Hp & Hne & _).
  exists port. by split.
Defined.

(* ===================================================================== *)
(** ** The maps of the analyzers *)

Section MapInvariant.

Variable rt : GoRuntime.

(** In the map built by [AnalyzeBeneficiary] (resp. [AnalyzePayer]) every
    entry is stored under its own address, holds the details of exactly the
    contributing records with that counterparty, in encounter order and at
    least one, and their running float64 total. *)
Theorem map_entries_keyed_by_address a ns ins ts k :
  (forall b, buildBeneficiaryMap rt a ns ins ts !! k = Some b ->
     Beneficiary.Address b = k /\
     Beneficiary.Transactions b =
       (filter (fun e => e.1 = k) (Engine.entries rt Engine.Outgoing a ns ins ts)).*2 /\
     Beneficiary.Transactions b <> [] /\
     Beneficiary.Amount b = runningTotal (Beneficiary.Transactions b)) /\
  (forall p, buildPayerMap rt a ns ins ts !! k = Some p ->
     Payer.Address p = k /\
     Payer.Transactions p =
       (filter (fun e => e.1 = k) (Engine.entries rt Engine.Incoming a ns ins ts)).*2 /\
     Payer.Transactions p <> [] /\
     Payer.Amount p = runningTotal (Payer.Transactions p)).
Proof.
  split.
  - intros b Hb.
    assert (Hv : (ofBeneficiary <$> buildBeneficiaryMap rt a ns ins ts) !! k =
                 Some (ofBeneficiary b)) by (by rewrite lookup_fmap, Hb).
    rewrite buildBeneficiaryMap_view, fold_mapStep_aggregate in Hv.
    apply elem_of_list_to_map_2, list_elem_of_fmap in Hv as (x & [= Hk Hx] & Hin).
    subst x. cbn in Hk. subst k.
    destruct (aggregate_contents _ _ Hin) as (T & S & N). cbn in T, S, N. done.
  - intros p Hp.
    assert (Hv : (ofPayer <$> buildPayerMap rt a ns ins ts) !! k = Some (ofPayer p))
      by (by rewrite lookup_fmap, Hp).
    rewrite buildPayerMap_view, fold_mapStep_aggregate in Hv.
    apply elem_of_list_to_map_2, list_elem_of_fmap in Hv as (x & [= Hk Hx] & Hin).
    subst x. cbn in Hk. subst k.
    destruct (aggregate_contents _ _ Hin) as (T & S & N). cbn in T, S, N. done.
Qed.

End MapInvariant.

Lemma map_entries_keyed_by_address_witness :
  exists b, buildBeneficiaryMap exampleRuntime "0xA" [smallToB1; largeToC; smallToB2] [] []
              !! "0xB"%string = Some b /\
            Beneficiary.Address b = "0xB"%string /\
            length (Beneficiary.Transactions b) = 2%nat.
Proof.
  eexists. split; [vm_compute; reflexivity|].
  split.
  - refine (proj1 (proj1 (map_entries_keyed_by_address exampleRuntime "0xA"
              [smallToB1; largeToC; smallToB2] [] [] "0xB") _ _)).
    vm_compute. reflexivity.
  - reflexivity.
Defined.
